(** * code-in-typescript: the tutorial snippets, embedded and verified

    The repository is a bundle of TypeScript teaching snippets.  The ones
    that carry behaviour worth stating are embedded here, each in a module
    of its own:

    - [demo/customPadstart.ts]: [String.prototype.customPadStart];
    - the [Promise] demonstrations ([examplePromise], [promise_1] ..
      [promise_3] under [Promise.all]);
    - the generic [Stack<T>] class;
    - the accessor-based classes [BankOfKigali], [BankAccount] and
      [Measurement];
    - [divide] with its [Result<T, E>], and [CreditCard];
    - the [Vehicle] hierarchy with its [FleetManager];
    - [PrintDetail] over the [Employee] interface;
    - [handleFormChange], [updateFormState] and [Store<T>].

    JavaScript [number]s that are amounts, measurements or random draws are
    IEEE binary64 values and are embedded as Rocq's primitive [float];
    lengths and indices are integers and are embedded as [Z] or [nat]. *)

From Stdlib Require Import ZArith List String Bool Lia Floats.
Import ListNotations.

Set Implicit Arguments.

(* ================================================================== *)
(** * Strings of the host language *)
(* ================================================================== *)

(** A JavaScript string is a finite sequence of code units; [string] plays
  that role here, one character per code unit. *)
Module JSString.

Open Scope string_scope.
Open Scope Z_scope.

(** [s.length] *)
Definition len (s : string) : Z := Z.of_nat (String.length s).

(** [s.slice(start, end)] for integral arguments: negative positions count
    from the end, everything is clamped to [0 .. s.length], and an empty
    range gives the empty string. *)
Definition slice (s : string) (start end_ : Z) : string :=
  let l := len s in
  let from := if start <? 0 then Z.max (l + start) 0 else Z.min start l in
  let to := if end_ <? 0 then Z.max (l + end_) 0 else Z.min end_ l in
  if from <? to
  then String.substring (Z.to_nat from) (Z.to_nat (to - from)) s
  else "".

(** [n] copies of [s] in a row. *)
Fixpoint repeat_string (n : nat) (s : string) : string :=
  match n with
  | O => ""
  | S k => s ++ repeat_string k s
  end.

(** [s.startsWith(search)] *)
Fixpoint startsWith (s search : string) : bool :=
  match search, s with
  | EmptyString, _ => true
  | String _ _, EmptyString => false
  | String c search', String d s' => Ascii.eqb c d && startsWith s' search'
  end.

(** [s.includes(search)]: [search] occurs somewhere in [s]. *)
Fixpoint includes (s search : string) : bool :=
  startsWith s search
  || match s with
     | EmptyString => false
     | String _ s' => includes s' search
     end.

Lemma append_nil_r (s : string) : s ++ "" = s.
Proof. induction s as [|c s IH]; simpl; [reflexivity | now rewrite IH]. Qed.

Lemma append_assoc (a b c : string) : (a ++ b) ++ c = a ++ (b ++ c).
Proof. induction a as [|x a IH]; simpl; [reflexivity | now rewrite IH]. Qed.

Lemma length_append (a b : string) :
  String.length (a ++ b) = (String.length a + String.length b)%nat.
Proof. induction a as [|x a IH]; simpl; [reflexivity | now rewrite IH]. Qed.

Lemma length_repeat_string (n : nat) (s : string) :
  String.length (repeat_string n s) = (n * String.length s)%nat.
Proof.
  induction n as [|n IH]; simpl; [reflexivity|].
  now rewrite length_append, IH.
Qed.

Lemma repeat_string_snoc (n : nat) (s : string) :
  repeat_string n s ++ s = repeat_string (S n) s.
Proof.
  induction n as [|n IH]; simpl.
  - now rewrite append_nil_r.
  - now rewrite append_assoc, IH.
Qed.

Lemma repeat_string_add (n m : nat) (s : string) :
  repeat_string (n + m) s = repeat_string n s ++ repeat_string m s.
Proof.
  induction n as [|n IH]; simpl; [reflexivity|].
  now rewrite IH, append_assoc.
Qed.

(** Taking a prefix that fits in the left operand ignores the right one. *)
Lemma substring_0_append (n : nat) (a b : string) :
  (n <= String.length a)%nat ->
  String.substring 0 n (a ++ b) = String.substring 0 n a.
Proof.
  revert a; induction n as [|n IH]; intros a Hn.
  - destruct a; simpl; destruct b; reflexivity.
  - destruct a as [|c a]; simpl in *; [lia|].
    f_equal. apply IH. lia.
Qed.

Lemma length_substring_0 (n : nat) (s : string) :
  (n <= String.length s)%nat -> String.length (String.substring 0 n s) = n.
Proof.
  revert s; induction n as [|n IH]; intros s Hn.
  - destruct s; reflexivity.
  - destruct s as [|c s]; simpl in *; [lia|].
    f_equal. apply IH. lia.
Qed.

Lemma slice_prefix (s : string) (n : Z) :
  0 < n -> n <= len s -> slice s 0 n = String.substring 0 (Z.to_nat n) s.
Proof.
  intros Hpos Hle. unfold slice.
  change (0 <? 0) with false. cbv iota.
  replace (n <? 0) with false by (symmetry; apply Z.ltb_ge; lia).
  rewrite (Z.min_l 0) by (unfold len; lia).
  rewrite (Z.min_l n) by exact Hle.
  replace (0 <? n) with true by (symmetry; apply Z.ltb_lt; lia).
  rewrite Z.sub_0_r. reflexivity.
Qed.

Lemma startsWith_spec (s search : string) :
  startsWith s search = true <-> exists rest, s = search ++ rest.
Proof.
  revert s. induction search as [|c search IH]; intros s; simpl.
  - destruct s; split; eauto.
  - destruct s as [|d s]; simpl.
    + split; [discriminate | intros [rest H]; discriminate].
    + rewrite andb_true_iff, Ascii.eqb_eq, IH. split.
      * intros [-> [rest ->]]. now exists rest.
      * intros [rest H]. injection H as -> ->. split; [reflexivity|].
        now exists rest.
Qed.

(** [includes] finds [search] exactly when the string can be cut into
    something, then [search], then something. *)
Lemma includes_spec (s search : string) :
  includes s search = true
  <-> exists before after, s = before ++ search ++ after.
Proof.
  induction s as [|d s IH].
  - cbn [includes]. rewrite orb_false_r, startsWith_spec. split.
    + intros [rest H]. now exists "", rest.
    + intros [[|c before] [after H]]; [now exists after|discriminate].
  - cbn [includes]. rewrite orb_true_iff, startsWith_spec, IH. split.
    + intros [[rest H]|(before & after & H)].
      * now exists "", rest.
      * exists (String d before), after. simpl. now rewrite H.
    + intros [[|c before] [after H]].
      * left. now exists after.
      * right. injection H as _ H. now exists before, after.
Qed.

End JSString.

(* ================================================================== *)
(** * demo/customPadstart.ts *)
(* ================================================================== *)

Module PadStart.
Import JSString.
Open Scope string_scope.
Open Scope Z_scope.

(** The loop
<<
    while (repeated.length < needed) { repeated += padString; }
>>
    run for at most [fuel] tests of its condition; [None] when the fuel
    runs out before the condition turns false. *)
Fixpoint pad_loop (fuel : nat) (padString : string) (needed : Z)
         (repeated : string) : option string :=
  match fuel with
  | O => None
  | S fuel' =>
      if len repeated <? needed
      then pad_loop fuel' padString needed (repeated ++ padString)
      else Some repeated
  end.

(** [String.prototype.customPadStart].  [this] is the receiver (already a
    string, so [String(this)] is the identity), the optional [padString]
    is [None] when the caller leaves it out and then defaults to one
    space. *)
Definition customPadStart (fuel : nat) (this : string) (targetLength : Z)
           (padString : option string) : option string :=
  let padString := match padString with Some p => p | None => " " end in
  let str := this in
  let needed := targetLength - len str in
  if needed <=? 0 then Some str
  else
    match pad_loop fuel padString needed "" with
    | Some repeated => Some (slice repeated 0 needed ++ str)
    | None => None
    end.

(** What the padding is meant to be: the first [n] code units of
    [padString] written over and over. *)
Definition padding (padString : string) (n : nat) : string :=
  String.substring 0 n (repeat_string n padString).

(** ** The three calls of the file *)

Example pad_7 : customPadStart 4 "7" 3 (Some "0") = Some "007".
Proof. reflexivity. Qed.

Example pad_Mucyo : customPadStart 6 "Mucyo" 10 (Some "-") = Some "-----Mucyo".
Proof. reflexivity. Qed.

Example pad_42 : customPadStart 4 "42" 5 None = Some "   42".
Proof. reflexivity. Qed.

(** ** The loop *)

(** With an empty [padString] the loop makes no progress: whatever the fuel,
    it is still running when the fuel is gone. *)
Lemma pad_loop_empty_pad (needed : Z) :
  0 < needed -> forall fuel, pad_loop fuel "" needed "" = None.
Proof.
  intros Hpos fuel. induction fuel as [|fuel IH]; simpl; [reflexivity|].
  replace (len "" <? needed) with true; [exact IH|].
  symmetry. apply Z.ltb_lt. exact Hpos.
Qed.

(** With a non-empty [padString] every round adds at least one code unit, so
    the loop leaves with some number [k'] of copies that reaches [needed]. *)
Lemma pad_loop_terminates (padString : string) (needed : Z) :
  padString <> "" ->
  forall fuel k,
    Z.max 0 (needed - len (repeat_string k padString)) < Z.of_nat fuel ->
    exists k', pad_loop fuel padString needed (repeat_string k padString)
               = Some (repeat_string k' padString)
               /\ needed <= len (repeat_string k' padString).
Proof.
  intros Hne.
  assert (Hp : (1 <= String.length padString)%nat).
  { destruct padString; [congruence | simpl; lia]. }
  induction fuel as [|fuel IH]; intros k Hfuel.
  - lia.
  - simpl. destruct (len (repeat_string k padString) <? needed) eqn:Hlt.
    + rewrite repeat_string_snoc. apply IH.
      apply Z.ltb_lt in Hlt. unfold len in *.
      rewrite length_repeat_string in *. simpl. nia.
    + exists k. split; [reflexivity|]. apply Z.ltb_ge in Hlt. exact Hlt.
Qed.

(** A prefix of the repeated pad does not depend on how many copies were
    written, as long as they cover it. *)
Lemma prefix_repeat_string (n a b : nat) (s : string) :
  (n <= String.length (repeat_string a s))%nat ->
  (n <= String.length (repeat_string b s))%nat ->
  String.substring 0 n (repeat_string a s)
  = String.substring 0 n (repeat_string b s).
Proof.
  intros Ha Hb.
  rewrite <- (substring_0_append (repeat_string a s) (repeat_string b s) Ha).
  rewrite <- (substring_0_append (repeat_string b s) (repeat_string a s) Hb).
  rewrite <- !repeat_string_add. now rewrite Nat.add_comm.
Qed.

(** ** The method *)

(** X3: A receiver that is already long enough comes back as it is, whatever
    the pad, the empty one included; the loop is not even entered, so no
    fuel is needed. *)
Lemma customPadStart_long_enough (fuel : nat) (this : string)
      (targetLength : Z) (padString : option string) :
  targetLength <= len this ->
  customPadStart fuel this targetLength padString = Some this.
Proof.
  intros Hle. unfold customPadStart.
  replace (targetLength - len this <=? 0) with true; [reflexivity|].
  symmetry. apply Z.leb_le. lia.
Qed.

(** A shorter receiver and a non-empty pad: given enough fuel the call
    returns the receiver with [padding] in front. *)
Lemma customPadStart_pads (fuel : nat) (this : string) (targetLength : Z)
      (padString : string) :
  padString <> "" ->
  len this < targetLength ->
  targetLength - len this < Z.of_nat fuel ->
  customPadStart fuel this targetLength (Some padString)
  = Some (padding padString (Z.to_nat (targetLength - len this)) ++ this).
Proof.
  intros Hne Hshort Hfuel. unfold customPadStart.
  set (needed := targetLength - len this) in *.
  replace (needed <=? 0) with false by (symmetry; apply Z.leb_gt; lia).
  destruct (@pad_loop_terminates padString needed Hne fuel 0%nat)
    as (k' & Hloop & Hk').
  { simpl. unfold len. simpl. lia. }
  simpl in Hloop. rewrite Hloop.
  rewrite slice_prefix by lia.
  unfold padding. do 2 f_equal.
  assert (Hp : (1 <= String.length padString)%nat).
  { destruct padString; [congruence | simpl; lia]. }
  apply prefix_repeat_string.
  - unfold len in Hk'. lia.
  - rewrite length_repeat_string. nia.
Qed.

(** The same with the default pad, one space. *)
Lemma customPadStart_default_pad (fuel : nat) (this : string)
      (targetLength : Z) :
  customPadStart fuel this targetLength None
  = customPadStart fuel this targetLength (Some " ").
Proof. reflexivity. Qed.

(** The padded result has exactly the target length. *)
Lemma length_padded (this padString : string) (targetLength : Z) :
  padString <> "" ->
  len this < targetLength ->
  len (padding padString (Z.to_nat (targetLength - len this)) ++ this)
  = targetLength.
Proof.
  intros Hne Hshort. unfold len in *. rewrite length_append.
  unfold padding. rewrite length_substring_0.
  - lia.
  - assert (Hp : (1 <= String.length padString)%nat).
    { destruct padString; [congruence | simpl; lia]. }
    rewrite length_repeat_string. nia.
Qed.

(** More fuel never changes an answer already reached. *)
Lemma pad_loop_fuel_mono (padString : string) (needed : Z) :
  forall fuel fuel' repeated r,
    (fuel <= fuel')%nat ->
    pad_loop fuel padString needed repeated = Some r ->
    pad_loop fuel' padString needed repeated = Some r.
Proof.
  induction fuel as [|fuel IH]; intros fuel' repeated r Hle Hrun.
  - discriminate.
  - destruct fuel' as [|fuel']; [lia|]. simpl in *.
    destruct (len repeated <? needed); [|exact Hrun].
    apply IH with (fuel' := fuel') in Hrun; [exact Hrun | lia].
Qed.

(** An empty pad and a receiver that is too short: the call never returns. *)
Lemma customPadStart_empty_pad (this : string) (targetLength : Z) :
  len this < targetLength ->
  forall fuel, customPadStart fuel this targetLength (Some "") = None.
Proof.
  intros Hshort fuel. unfold customPadStart.
  replace (targetLength - len this <=? 0) with false
    by (symmetry; apply Z.leb_gt; lia).
  rewrite pad_loop_empty_pad by lia. reflexivity.
Qed.

(** The documented call: ["7".customPadStart(3, "0")] returns ["007"], for
    every amount of fuel from four loop tests on. *)
Lemma customPadStart_7_3_0 :
  forall fuel, (4 <= fuel)%nat ->
    customPadStart fuel "7" 3 (Some "0") = Some "007".
Proof.
  intros fuel Hfuel.
  rewrite customPadStart_pads.
  - reflexivity.
  - discriminate.
  - reflexivity.
  - change (len "7") with 1. lia.
Qed.

(** C1, where the general statement breaks: with the empty string as pad,
    ["7".customPadStart(3, "")] does not return a string, however long the
    loop is allowed to run: [repeated] stays empty and the loop condition
    stays true. *)
Theorem customPadStart_7_3_empty_diverges :
  forall fuel, customPadStart fuel "7" 3 (Some "") = None.
Proof.
  apply customPadStart_empty_pad. reflexivity.
Qed.

(** ** What a caller gets *)

(** The [i]-th code unit of a run of copies of [s] is the one at [i] modulo
    the length of [s]. *)
Lemma get_repeat_string (s : string) (k i : nat) :
  (i < k * String.length s)%nat ->
  String.get i (repeat_string k s)
  = String.get (i mod String.length s) s.
Proof.
  revert i. induction k as [|k IH]; intros i Hi; [simpl in Hi; lia|].
  assert (Hp : (0 < String.length s)%nat) by (simpl in Hi; nia).
  simpl repeat_string.
  destruct (Nat.lt_ge_cases i (String.length s)) as [Hlt|Hge].
  - rewrite <- append_correct1 by exact Hlt.
    now rewrite Nat.mod_small.
  - replace i with ((i - String.length s) + String.length s)%nat at 1 by lia.
    rewrite <- append_correct2.
    rewrite IH by (simpl in Hi; lia).
    f_equal.
    replace i with ((i - String.length s) + 1 * String.length s)%nat at 2
      by lia.
    now rewrite Nat.Div0.mod_add.
Qed.

(** X1: For a receiver shorter than the target and a non-empty pad, the call
    returns a string of exactly [targetLength] code units. *)
Theorem customPadStart_reaches_target (fuel : nat) (this : string)
        (targetLength : Z) (padString : string) :
  padString <> "" ->
  len this < targetLength ->
  targetLength - len this < Z.of_nat fuel ->
  exists result,
    customPadStart fuel this targetLength (Some padString) = Some result
    /\ len result = targetLength.
Proof.
  intros Hne Hshort Hfuel. eexists. split.
  - now apply customPadStart_pads.
  - now apply length_padded.
Qed.

Lemma customPadStart_reaches_target_witness :
  exists result,
    customPadStart 9 "Mucyo" 10 (Some "ab") = Some result
    /\ len result = 10.
Proof.
  apply (@customPadStart_reaches_target 9 "Mucyo" 10 "ab").
  - discriminate.
  - reflexivity.
  - reflexivity.
Defined.

(** X2: The returned string, read from the left: first the pad, cycled from its
    first code unit for as many positions as were missing, then the
    receiver. *)
Theorem customPadStart_characters (fuel : nat) (this : string)
        (targetLength : Z) (padString : string) :
  padString <> "" ->
  len this < targetLength ->
  targetLength - len this < Z.of_nat fuel ->
  exists result,
    customPadStart fuel this targetLength (Some padString) = Some result
    /\ (forall i : nat,
          Z.of_nat i < targetLength - len this ->
          String.get i result
          = String.get (i mod String.length padString) padString)
    /\ (forall j : nat,
          String.get (j + Z.to_nat (targetLength - len this)) result
          = String.get j this).
Proof.
  intros Hne Hshort Hfuel. eexists. split; [now apply customPadStart_pads|].
  set (n := Z.to_nat (targetLength - len this)).
  assert (Hp : (1 <= String.length padString)%nat).
  { destruct padString; [congruence | simpl; lia]. }
  assert (Hn : String.length (padding padString n) = n).
  { unfold padding. apply length_substring_0.
    rewrite length_repeat_string. nia. }
  split.
  - intros i Hi.
    rewrite <- append_correct1 by lia.
    unfold padding. rewrite substring_correct1 by lia.
    rewrite Nat.add_0_r. apply get_repeat_string. nia.
  - intros j. rewrite <- Hn at 1. now rewrite <- append_correct2.
Qed.

Lemma customPadStart_characters_witness :
  exists result,
    customPadStart 9 "Mucyo" 10 (Some "ab") = Some result
    /\ (forall i : nat,
          Z.of_nat i < 10 - len "Mucyo" ->
          String.get i result = String.get (i mod 2) "ab")
    /\ (forall j : nat,
          String.get (j + Z.to_nat (10 - len "Mucyo")) result
          = String.get j "Mucyo").
Proof.
  apply (@customPadStart_characters 9 "Mucyo" 10 "ab").
  - discriminate.
  - reflexivity.
  - reflexivity.
Defined.

(** A receiver already long enough, with an empty pad and no fuel. *)
Lemma customPadStart_long_enough_witness :
  customPadStart 0 "Mucyo" 3 (Some "") = Some "Mucyo".
Proof.
  apply (@customPadStart_long_enough 0 "Mucyo" 3 (Some "")).
  discriminate.
Defined.

(** X4: Whenever padding is needed and the pad is the empty string, the call
    does not return, whatever the receiver. *)
Theorem customPadStart_empty_pad_hangs (this : string) (targetLength : Z) :
  len this < targetLength ->
  forall fuel, customPadStart fuel this targetLength (Some "") = None.
Proof. apply customPadStart_empty_pad. Qed.

Lemma customPadStart_empty_pad_hangs_witness :
  customPadStart 1000 "42" 5 (Some "") = None.
Proof.
  apply (@customPadStart_empty_pad_hangs "42" 5). reflexivity.
Defined.

End PadStart.

(* ================================================================== *)
(** * Numbers of the host language *)
(* ================================================================== *)

(** A JavaScript [number] is an IEEE 754 binary64 value.  [a < b] is [ltb],
    [a <= b] is [leb], [a > b] is [ltb] with the operands swapped, and
    [Number.isFinite] is [is_finite].  Every comparison with [NaN] is
    false. *)
Module JSNumber.

Open Scope float_scope.

Definition number : Type := float.

(** [Number.MAX_VALUE] *)
Definition MAX_VALUE : number := 0x1.fffffffffffffp+1023.

(** [Number.isFinite] on a value that is a number. *)
Definition isFinite (x : number) : bool := is_finite x.

(** Swapping the operands of the reference comparison flips its answer. *)
Lemma SFcompare_swap (x y : spec_float) :
  SFcompare y x = option_map CompOpp (SFcompare x y).
Proof.
  destruct x as [sx|sx| |sx mx ex], y as [sy|sy| |sy my ey]; simpl;
    try reflexivity;
    try (destruct sx; reflexivity);
    try (destruct sy; reflexivity);
    try (destruct sx, sy; reflexivity).
  f_equal.
  rewrite (Z.compare_antisym ex ey).
  pose proof (Pos.compare_cont_antisym mx my Eq) as Hm. simpl in Hm.
  destruct sx, sy; try reflexivity;
    destruct (ex ?= ey)%Z; simpl; try reflexivity;
    rewrite <- Hm; [now rewrite CompOpp_involutive | reflexivity].
Qed.

Lemma ltb_leb (x y : number) : (x <? y) = true -> (x <=? y) = true.
Proof.
  rewrite ltb_spec, leb_spec. unfold SFltb, SFleb.
  destruct (SFcompare _ _) as [[]|]; congruence.
Qed.

(** [x <= y] excludes [x > y]. *)
Lemma leb_not_gt (x y : number) : (x <=? y) = true -> (y <? x) = false.
Proof.
  rewrite ltb_spec, leb_spec. unfold SFltb, SFleb.
  rewrite (SFcompare_swap (Prim2SF x) (Prim2SF y)).
  destruct (SFcompare _ _) as [[]|]; simpl; congruence.
Qed.

(** [x < y] excludes [x > y]. *)
Lemma ltb_not_gt (x y : number) : (x <? y) = true -> (y <? x) = false.
Proof. intros H. apply leb_not_gt, ltb_leb, H. Qed.

(** [x === y] on numbers excludes both [x < y] and [x > y]. *)
Lemma eqb_not_ltb (x y : number) :
  (x =? y) = true -> (x <? y) = false /\ (y <? x) = false.
Proof.
  rewrite eqb_spec, !ltb_spec. unfold SFeqb, SFltb.
  rewrite (SFcompare_swap (Prim2SF x) (Prim2SF y)).
  destruct (SFcompare _ _) as [[]|]; simpl; split; congruence.
Qed.

(** Between two numbers that can be compared at all, "not greater" is
    "less or equal". *)
Lemma not_gt_iff_leb (x y : number) :
  SFcompare (Prim2SF x) (Prim2SF y) <> None ->
  ((y <? x) = false <-> (x <=? y) = true).
Proof.
  rewrite ltb_spec, leb_spec. unfold SFltb, SFleb.
  rewrite (SFcompare_swap (Prim2SF x) (Prim2SF y)).
  destruct (SFcompare _ _) as [[]|]; simpl; intros Hc; split;
    congruence.
Qed.

(** A number that compares below or equal to something is not [NaN]. *)
Lemma leb_not_nan (x y : number) :
  (x <=? y) = true -> Prim2SF x <> S754_nan /\ Prim2SF y <> S754_nan.
Proof.
  rewrite leb_spec. unfold SFleb.
  destruct (Prim2SF x) as [| | |], (Prim2SF y) as [| | |]; simpl;
    split; congruence.
Qed.

Lemma SFcompare_not_nan (x y : spec_float) :
  x <> S754_nan -> y <> S754_nan -> SFcompare x y <> None.
Proof.
  destruct x as [| | |], y as [| | |]; simpl; congruence.
Qed.

(** ** [NaN], the infinities and the finite numbers, on the reference
    representation *)

Definition SFis_finite (x : spec_float) : bool :=
  match x with
  | S754_zero _ | S754_finite _ _ _ => true
  | S754_infinity _ | S754_nan => false
  end.

Lemma SFcompare_refl (x : spec_float) :
  x <> S754_nan -> SFcompare x x = Some Eq.
Proof.
  destruct x as [s|s| |s m e]; simpl; intros H;
    try reflexivity; try congruence.
  - now destruct s.
  - rewrite Z.compare_refl, Pos.compare_cont_refl. now destruct s.
Qed.

Lemma is_nan_spec (x : number) :
  is_nan x = true <-> Prim2SF x = S754_nan.
Proof.
  unfold is_nan. rewrite eqb_spec. unfold SFeqb. split.
  - intros H. destruct (Prim2SF x) as [s|s| |s m e] eqn:E;
      try reflexivity; exfalso;
      rewrite SFcompare_refl in H by discriminate; discriminate.
  - intros ->. reflexivity.
Qed.

Lemma Prim2SF_infinity : Prim2SF infinity = S754_infinity false.
Proof. vm_compute. reflexivity. Qed.

Lemma isFinite_spec (x : number) : isFinite x = SFis_finite (Prim2SF x).
Proof.
  unfold isFinite, is_finite, is_nan, is_infinity.
  rewrite !eqb_spec, abs_spec, Prim2SF_infinity. unfold SFeqb.
  destruct (Prim2SF x) as [s|s| |s m e] eqn:E; simpl;
    try reflexivity; try (now destruct s).
  rewrite Z.compare_refl, Pos.compare_cont_refl. now destruct s.
Qed.

(** A finite number is not [NaN]. *)
Lemma finite_not_nan (x : number) :
  isFinite x = true -> Prim2SF x <> S754_nan.
Proof. rewrite isFinite_spec. intros H E. rewrite E in H. discriminate. Qed.

(** Every comparison with [NaN] is false. *)
Lemma nan_compares_false (x y : number) :
  is_nan x = true ->
  (x <? y) = false /\ (y <? x) = false
  /\ (x <=? y) = false /\ (y <=? x) = false.
Proof.
  intros H. apply is_nan_spec in H.
  rewrite !ltb_spec, !leb_spec. unfold SFltb, SFleb. rewrite H.
  destruct (Prim2SF y); simpl; repeat split; reflexivity.
Qed.

(** Subtracting [NaN] gives [NaN]. *)
Lemma sub_nan (x y : number) : is_nan y = true -> is_nan (x - y) = true.
Proof.
  rewrite !is_nan_spec, sub_spec. intros ->.
  unfold SF64sub, SFsub. now destruct (Prim2SF x).
Qed.

(** [Infinity] minus a finite number is [Infinity]. *)
Lemma infinity_sub_finite (y : number) :
  isFinite y = true -> infinity - y = infinity.
Proof.
  rewrite isFinite_spec. intros H. apply Prim2SF_inj.
  rewrite sub_spec, Prim2SF_infinity. unfold SF64sub, SFsub.
  destruct (Prim2SF y); simpl in *; try reflexivity; discriminate.
Qed.

(** A finite number is below [Infinity]. *)
Lemma finite_below_infinity (y : number) :
  isFinite y = true -> (y <? infinity) = true /\ (infinity <? y) = false.
Proof.
  rewrite isFinite_spec. intros H.
  rewrite !ltb_spec, Prim2SF_infinity. unfold SFltb.
  destruct (Prim2SF y) as [s|s| |s m e]; simpl in *;
    split; try reflexivity; discriminate.
Qed.

(** For a number that is not [NaN], "not below zero" is "zero or above". *)
Lemma not_negative_iff (x : number) :
  Prim2SF x <> S754_nan -> ((x <? 0) = false <-> (0 <=? x) = true).
Proof.
  intros H. apply not_gt_iff_leb. apply SFcompare_not_nan; [|exact H].
  vm_compute. discriminate.
Qed.


End JSNumber.

(* ================================================================== *)
(** * The console and thrown errors *)
(* ================================================================== *)

Module Host.
Import JSNumber.

(** [new Error(message)] *)
Record Error : Type := new_Error { message : string }.

(** One argument handed to [console.log] or [console.error]: a piece of
    text, a number still to be formatted by the console, or an array of
    strings.  A template literal contributes its pieces in order. *)
Inductive printed : Type :=
| PText (s : string)
| PNumber (n : number)
| PStrings (l : list string).

(** One call of the console. *)
Inductive console_line : Type :=
| console_log (args : list printed)
| console_error (args : list printed).

Definition Console : Type := list console_line.

End Host.

(* ================================================================== *)
(** * The Promise demonstrations *)
(* ================================================================== *)

Module Promises.
Import JSNumber Host.
Open Scope string_scope.
Open Scope float_scope.

(** How a promise ends. *)
Inductive settlement (A : Type) : Type :=
| Fulfilled (value : A)
| Rejected (reason : Error).
Arguments Fulfilled {A} value.
Arguments Rejected {A} reason.

(** A promise of these demonstrations: the time, in milliseconds after the
    script starts, at which it settles, and how.  [setTimeout(f, d)] inside
    an executor makes the time [d]; an executor that calls [resolve] or
    [reject] directly makes it [0]. *)
Record Promise (A : Type) : Type := mkPromise {
  settles_at : nat;
  outcome : settlement A
}.
Arguments mkPromise {A} settles_at outcome.

Definition is_rejected {A} (p : Promise A) : bool :=
  match outcome p with Rejected _ => true | Fulfilled _ => false end.

Definition is_fulfilled {A} (p : Promise A) : bool :=
  match outcome p with Fulfilled _ => true | Rejected _ => false end.

(** [p.then(onFulfilled)] with a handler that returns normally: the handler
    runs on the value of a fulfilled promise and is skipped, the rejection
    passing through, on a rejected one.  The handler acts on the console. *)
Definition then_ {A} (p : settlement A) (onFulfilled : A -> Console -> Console)
           (c : Console) : settlement unit * Console :=
  match p with
  | Fulfilled v => (Fulfilled tt, onFulfilled v c)
  | Rejected e => (Rejected e, c)
  end.

(** [p.catch(onRejected)], likewise: the handler runs on the reason of a
    rejected promise and is skipped on a fulfilled one. *)
Definition catch_ {A} (p : settlement A) (onRejected : Error -> Console -> Console)
           (c : Console) : settlement unit * Console :=
  match p with
  | Fulfilled _ => (Fulfilled tt, c)
  | Rejected e => (Fulfilled tt, onRejected e c)
  end.

(** The rejection that settles first, if any; among rejections at the same
    time the one earlier in the list. *)
Fixpoint first_rejection {A} (ps : list (Promise A)) : option (nat * Error) :=
  match ps with
  | [] => None
  | p :: rest =>
      match outcome p, first_rejection rest with
      | Rejected e, Some (t, e') =>
          if (settles_at p <=? t)%nat then Some (settles_at p, e) else Some (t, e')
      | Rejected e, None => Some (settles_at p, e)
      | Fulfilled _, r => r
      end
  end.

(** The values of the fulfilled promises of a list, in the list's order. *)
Fixpoint values {A} (ps : list (Promise A)) : list A :=
  match ps with
  | [] => []
  | p :: rest =>
      match outcome p with
      | Fulfilled v => v :: values rest
      | Rejected _ => values rest
      end
  end.

(** [Promise.all(ps)]: rejected with the first rejection as soon as one of
    the promises rejects; otherwise fulfilled, once the last one has
    settled, with the array of their values in the order of [ps]. *)
Definition Promise_all {A} (ps : list (Promise A)) : Promise (list A) :=
  match first_rejection ps with
  | Some (t, e) => mkPromise t (Rejected e)
  | None => mkPromise (fold_right Nat.max 0%nat (map (@settles_at A) ps))
                      (Fulfilled (values ps))
  end.

(** ** [examplePromise] and its handlers; the draw of [Math.random()] is the
    argument. *)

Definition examplePromise (random_num : number) : Promise string :=
  if 0.5 <? random_num
  then mkPromise 0 (Fulfilled "The Promise resolved successfully")
  else mkPromise 0 (Rejected (new_Error
         "The promises failed to resolve.......! try to handle the error!")).

(** [examplePromise.then(result => console.log(result))
                   .catch(error => console.error('Error', error.message))] *)
Definition examplePromise_handlers (random_num : number) (c : Console) : Console :=
  let '(p1, c1) :=
    then_ (outcome (examplePromise random_num))
          (fun result c => (c ++ [console_log [PText result]])%list) c in
  let '(_, c2) :=
    catch_ p1
           (fun error c =>
              (c ++ [console_error [PText "Error"; PText (message error)]])%list)
           c1 in
  c2.

(** ** The [Promise.all] demonstration *)

Definition promise_1 : Promise string :=
  mkPromise 2000 (Fulfilled "Promise 1 resoved successfully").

Definition promise_2 : Promise string :=
  mkPromise 1000 (Fulfilled "Promise 2 resolved Now!").

Definition promise_3 (randomNumber : number) : Promise string :=
  if 0.5 <? randomNumber
  then mkPromise 0 (Fulfilled "Promise 3 resolves successfully ")
  else mkPromise 0 (Rejected (new_Error
         "There is Error resolving the promse Three!!")).

Definition all_three (randomNumber : number) : Promise (list string) :=
  Promise_all [promise_1; promise_2; promise_3 randomNumber].

(** [Promise.all([...]).then(result => console.log(result))
                       .catch(error => console.error("There was ...", error.message))] *)
Definition all_three_handlers (randomNumber : number) (c : Console) : Console :=
  let '(p1, c1) :=
    then_ (outcome (all_three randomNumber))
          (fun result c => (c ++ [console_log [PStrings result]])%list) c in
  let '(_, c2) :=
    catch_ p1
           (fun error c =>
              (c ++ [console_error
                       [PText "There was an error resolving one of the promises";
                        PText (message error)]])%list)
           c1 in
  c2.

(** A value that [Math.random()] can return: a number in [0, 1). *)
Definition is_random_draw (r : number) : Prop :=
  (0 <=? r) = true /\ (r <? 1) = true.

(** ** The aggregate in general *)

Lemma first_rejection_none {A} (ps : list (Promise A)) :
  first_rejection ps = None <-> forall p, In p ps -> is_rejected p = false.
Proof.
  unfold is_rejected. induction ps as [|p ps IH]; simpl.
  - split; [intros _ q [] | reflexivity].
  - destruct (outcome p) as [v|e] eqn:Hp.
    + rewrite IH. split.
      * intros H q [<-|Hq]; [now rewrite Hp | now apply H].
      * intros H q Hq. apply H. now right.
    + split.
      * destruct (first_rejection ps) as [[t e']|];
          [destruct (settles_at p <=? t)%nat|]; discriminate.
      * intros H. specialize (H p (or_introl eq_refl)).
        rewrite Hp in H. discriminate.
Qed.

(** [Promise.all] rejects exactly when one of its promises does. *)
Lemma Promise_all_rejected {A} (ps : list (Promise A)) :
  is_rejected (Promise_all ps) = true
  <-> exists p, In p ps /\ is_rejected p = true.
Proof.
  unfold Promise_all.
  destruct (first_rejection ps) as [[t e]|] eqn:Hfr; simpl.
  - split; [intros _ | reflexivity].
    assert (Hnot : ~ (forall p, In p ps -> is_rejected p = false)).
    { intros Hall. apply first_rejection_none in Hall. congruence. }
    clear Hfr. induction ps as [|p ps IH].
    + exfalso. apply Hnot. intros q [].
    + destruct (is_rejected p) eqn:Hp.
      * exists p. split; [now left | exact Hp].
      * destruct IH as (q & Hq & Hrej).
        { intros Hall. apply Hnot. intros q [<-|Hq]; [exact Hp | now apply Hall]. }
        exists q. split; [now right | exact Hrej].
  - unfold is_rejected at 1. simpl. split; [discriminate|].
    intros (p & Hin & Hrej).
    apply first_rejection_none with (p := p) in Hfr; [congruence | exact Hin].
Qed.

(** When every promise is fulfilled, the values come in the order of the
    list, one per promise. *)
Lemma values_all_fulfilled {A} (ps : list (Promise A)) (vs : list A) :
  map (@outcome A) ps = map Fulfilled vs -> values ps = vs.
Proof.
  revert vs. induction ps as [|p ps IH]; intros [|v vs] H; simpl in *;
    try discriminate; [reflexivity|].
  injection H as Hp Hrest. rewrite Hp. f_equal. now apply IH.
Qed.

(** ** The handler chain in general: of the two handlers, the one that
    matches the settlement runs, once, and the other does not. *)
Lemma then_catch_runs_one {A} (p : settlement A)
      (onFulfilled : A -> Console -> Console)
      (onRejected : Error -> Console -> Console) (c : Console) :
  snd (catch_ (fst (then_ p onFulfilled c)) onRejected
              (snd (then_ p onFulfilled c)))
  = match p with
    | Fulfilled v => onFulfilled v c
    | Rejected e => onRejected e c
    end.
Proof. destruct p; reflexivity. Qed.

(** ** The demonstrations *)

(** Every draw of [Math.random()] can be compared with [0.5]. *)
Lemma draw_comparable (r : number) :
  is_random_draw r -> SFcompare (Prim2SF r) (Prim2SF 0.5) <> None.
Proof.
  intros [Hlo _]. apply SFcompare_not_nan.
  - exact (proj2 (leb_not_nan Hlo)).
  - vm_compute. discriminate.
Qed.

(** C3: [examplePromise] (and [promise_3], which repeats it with other
    messages) is fulfilled with its success message exactly when the draw
    is greater than [0.5] and rejected with its [Error] exactly when it is
    not; the chained handlers add one line to the console, printed by the
    [then] handler in the first case and by the [catch] handler in the
    second. *)
Theorem examplePromise_settles (random_num : number) (c : Console) :
  (outcome (examplePromise random_num)
     = Fulfilled "The Promise resolved successfully"
   <-> (0.5 <? random_num) = true)
  /\ (outcome (examplePromise random_num)
        = Rejected (new_Error
            "The promises failed to resolve.......! try to handle the error!")
      <-> (0.5 <? random_num) = false)
  /\ (outcome (promise_3 random_num)
        = Fulfilled "Promise 3 resolves successfully "
      <-> (0.5 <? random_num) = true)
  /\ (outcome (promise_3 random_num)
        = Rejected (new_Error "There is Error resolving the promse Three!!")
      <-> (0.5 <? random_num) = false)
  /\ examplePromise_handlers random_num c
     = (if 0.5 <? random_num
        then c ++ [console_log [PText "The Promise resolved successfully"]]
        else c ++ [console_error
                     [PText "Error";
                      PText "The promises failed to resolve.......! try to handle the error!"]])%list.
Proof.
  unfold examplePromise_handlers, examplePromise, promise_3.
  destruct (0.5 <? random_num); simpl;
    repeat split; intros; try reflexivity; discriminate.
Qed.

(** C4: for a draw of [Math.random()], the aggregate of [promise_1],
    [promise_2] and [promise_3] is rejected exactly when [promise_3] is,
    which is exactly when the draw is at most [0.5]; [promise_1] and
    [promise_2] are always fulfilled; and when [promise_3] is fulfilled too
    the aggregate is fulfilled with the three messages in the order of the
    array. *)
Theorem Promise_all_demo (randomNumber : number) :
  is_random_draw randomNumber ->
  (is_rejected (all_three randomNumber) = true
   <-> is_rejected (promise_3 randomNumber) = true)
  /\ (is_rejected (promise_3 randomNumber) = true
      <-> (randomNumber <=? 0.5) = true)
  /\ is_fulfilled promise_1 = true
  /\ is_fulfilled promise_2 = true
  /\ (is_fulfilled (promise_3 randomNumber) = true ->
      outcome (all_three randomNumber)
      = Fulfilled ["Promise 1 resoved successfully";
                   "Promise 2 resolved Now!";
                   "Promise 3 resolves successfully "]).
Proof.
  intros Hdraw.
  pose proof (not_gt_iff_leb randomNumber 0.5 (draw_comparable Hdraw)) as Hcmp.
  unfold all_three, promise_3 in *.
  destruct (0.5 <? randomNumber) eqn:Hgt.
  - repeat split; try reflexivity; try discriminate.
    intros Hle. apply Hcmp in Hle. discriminate.
  - repeat split; try reflexivity; try discriminate.
    intros _. now apply Hcmp.
Qed.

(** C4, at the draw [0.25]. *)
Lemma Promise_all_demo_witness :
  is_random_draw 0.25
  /\ is_rejected (all_three 0.25) = true
  /\ (0.25 <=? 0.5) = true.
Proof.
  assert (Hdraw : is_random_draw 0.25) by (split; reflexivity).
  split; [exact Hdraw|].
  destruct (Promise_all_demo Hdraw) as (Hall & Hthird & _).
  split.
  - apply Hall. reflexivity.
  - apply Hthird. reflexivity.
Defined.

End Promises.

(* ================================================================== *)
(** * The generic [Stack<T>] *)
(* ================================================================== *)

Module GenericStack.

Section Stack.

Variable T : Type.

(** ** The array underneath *)

(** [a[i]] on an array without holes: [undefined] ([None]) outside
    [0 .. a.length - 1]. *)
Definition array_get (a : list T) (i : Z) : option T :=
  if (i <? 0)%Z then None else nth_error a (Z.to_nat i).

(** [a.push(x)]: the element goes to the end. *)
Definition array_push (a : list T) (x : T) : list T := a ++ [x].

(** [a.pop()]: takes the last element off and returns it; on an empty array
    returns [undefined] and leaves the array empty. *)
Definition array_pop (a : list T) : option T * list T :=
  match a with
  | [] => (None, [])
  | _ :: _ => (nth_error a (List.length a - 1), removelast a)
  end.

(** ** The class.  Every method takes the object and returns its result
    together with the object afterwards. *)

Record Stack : Type := mkStack { items : list T }.

(** [new Stack<T>()] *)
Definition new_Stack : Stack := mkStack [].

Definition push (item : T) (this : Stack) : unit * Stack :=
  (tt, mkStack (array_push (items this) item)).

Definition pop (this : Stack) : option T * Stack :=
  let (r, a) := array_pop (items this) in (r, mkStack a).

Definition peek (this : Stack) : option T * Stack :=
  (array_get (items this) (Z.of_nat (List.length (items this)) - 1), this).

Definition isEmpty (this : Stack) : bool * Stack :=
  (Nat.eqb (List.length (items this)) 0, this).

(** ** Sequences of calls *)

Inductive call : Type :=
| Push (item : T)
| Pop
| Peek
| IsEmpty.

Definition perform (c : call) (this : Stack) : Stack :=
  match c with
  | Push item => snd (push item this)
  | Pop => snd (pop this)
  | Peek => snd (peek this)
  | IsEmpty => snd (isEmpty this)
  end.

(** The object after a sequence of calls, first call first. *)
Fixpoint perform_all (cs : list call) (this : Stack) : Stack :=
  match cs with
  | [] => this
  | c :: rest => perform_all rest (perform c this)
  end.

(** How many of the calls are pushes. *)
Fixpoint pushes (cs : list call) : nat :=
  match cs with
  | [] => 0
  | Push _ :: rest => S (pushes rest)
  | _ :: rest => pushes rest
  end.

(** How many of the calls are pops that find an element to take, when the
    sequence runs from [this]. *)
Fixpoint successful_pops (cs : list call) (this : Stack) : nat :=
  match cs with
  | [] => 0
  | c :: rest =>
      (match c, items this with
       | Pop, _ :: _ => 1
       | _, _ => 0
       end) + successful_pops rest (perform c this)
  end.

(** [push] for each element of [xs] in turn. *)
Definition push_all (xs : list T) (this : Stack) : Stack :=
  fold_left (fun s x => snd (push x s)) xs this.

(** [n] calls of [pop], with what each returned, first call first. *)
Fixpoint pop_times (n : nat) (this : Stack) : list (option T) * Stack :=
  match n with
  | O => ([], this)
  | S k =>
      let (r, this') := pop this in
      let (rs, this'') := pop_times k this' in
      (r :: rs, this'')
  end.

(** ** Proofs *)

Lemma array_pop_push (a : list T) (x : T) :
  array_pop (array_push a x) = (Some x, a).
Proof.
  unfold array_pop, array_push.
  destruct (a ++ [x]) as [|y l] eqn:E.
  - destruct a; discriminate.
  - rewrite <- E. f_equal.
    + rewrite length_app, nth_error_app2 by (simpl; lia).
      simpl. replace (List.length a + 1 - 1 - List.length a) with 0 by lia.
      reflexivity.
    + apply removelast_last.
Qed.

Lemma length_array_pop (a : list T) :
  List.length (snd (array_pop a)) = List.length a - 1.
Proof.
  destruct a as [|x a]; [reflexivity|].
  unfold array_pop, snd.
  destruct (exists_last (l := x :: a)) as (l & y & E); [discriminate|].
  rewrite E, removelast_last, length_app. simpl. lia.
Qed.

(** The height of the stack is the pushes minus the successful pops. *)
Lemma height_perform_all (cs : list call) :
  forall this,
    List.length (items (perform_all cs this)) + successful_pops cs this
    = List.length (items this) + pushes cs.
Proof.
  induction cs as [|c cs IH]; intros this; simpl; [lia|].
  rewrite Nat.add_assoc, (Nat.add_comm (List.length _)), <- Nat.add_assoc, IH.
  destruct c as [x| | |]; simpl.
  - unfold array_push. rewrite length_app. destruct (items this); simpl; lia.
  - unfold pop. pose proof (length_array_pop (items this)) as Hl.
    destruct (array_pop (items this)) as [r a]. simpl in *. rewrite Hl.
    destruct (items this); simpl; lia.
  - destruct (items this); simpl; lia.
  - destruct (items this); simpl; lia.
Qed.

(** C5: the stack is last-in-first-out.  [pop] right after [push x] returns
    [x] and gives back the stack as it was before the push; on a stack with
    no items [pop] and [peek] return [undefined]; [peek] leaves the stack
    as it is; and after any sequence of calls on a new stack [isEmpty]
    answers [true] exactly when as many pops found an element as there were
    pushes. *)
Theorem stack_lifo :
  (forall (s : Stack) (x : T), pop (snd (push x s)) = (Some x, s))
  /\ (forall s : Stack, items s = [] -> fst (pop s) = None /\ fst (peek s) = None)
  /\ (forall s : Stack, snd (peek s) = s)
  /\ (forall cs : list call,
        fst (isEmpty (perform_all cs new_Stack)) = true
        <-> pushes cs = successful_pops cs new_Stack).
Proof.
  split; [|split; [|split]].
  - intros s x. unfold push, pop. cbn [snd items].
    rewrite array_pop_push. now destruct s.
  - intros s Hs. unfold pop, peek. rewrite Hs. split; reflexivity.
  - intros s. reflexivity.
  - intros cs.
    pose proof (height_perform_all cs new_Stack) as Hh.
    unfold isEmpty. cbn [fst] in *. simpl in Hh.
    rewrite Nat.eqb_eq. lia.
Qed.

(** X5: Pushing the elements of [xs] and then popping as many times gives them
    back last pushed first, and the stack is as it was before the pushes. *)
Theorem pops_reverse_pushes (xs : list T) (s : Stack) :
  pop_times (List.length xs) (push_all xs s) = (map Some (rev xs), s).
Proof.
  revert s. induction xs as [|x xs IH] using rev_ind; intros s.
  - reflexivity.
  - unfold push_all. rewrite fold_left_app, length_app, rev_app_distr.
    rewrite Nat.add_comm. cbn [List.length Nat.add fold_left rev app map].
    cbn [pop_times].
    change (fold_left (fun s0 x0 => snd (push x0 s0)) xs s) with (push_all xs s).
    unfold push at 1. cbn [snd]. unfold pop at 1. cbn [items].
    rewrite array_pop_push.
    replace (mkStack (items (push_all xs s))) with (push_all xs s)
      by (now destruct (push_all xs s)).
    now rewrite IH.
Qed.

(** X6: [peek] shows what [pop] would return. *)
Theorem peek_shows_next_pop (s : Stack) : fst (peek s) = fst (pop s).
Proof.
  unfold peek, pop, array_pop, array_get. cbn [fst].
  destruct (items s) as [|x a] eqn:E; [reflexivity|].
  cbn [fst].
  replace (Z.of_nat (List.length (x :: a)) - 1 <? 0)%Z with false
    by (symmetry; apply Z.ltb_ge; simpl List.length; lia).
  f_equal. simpl List.length. lia.
Qed.

End Stack.

(** The calls of the snippet: [push(10); push(20); pop()] prints [20]. *)
Example numberStack_pop :
  fst (pop (snd (push 20%Z (snd (push 10%Z (new_Stack Z)))))) = Some 20%Z.
Proof. reflexivity. Qed.

End GenericStack.

(* ================================================================== *)
(** * Methods that mutate an object, print and throw *)
(* ================================================================== *)

Module Effects.
Import Host.

(** What a method body can see and change: the fields of [this] and the
    console. *)
Record World (O : Type) : Type := mkWorld {
  this : O;
  console : Console
}.
Arguments mkWorld {O} this console.

(** How a body ends: normally with a value, or by a [throw]. *)
Inductive completion (A : Type) : Type :=
| Normal (a : A)
| Throw (e : Error).
Arguments Normal {A} a.
Arguments Throw {A} e.

(** A body: from the world before to its completion and the world at that
    point.  A [throw] keeps whatever was changed before it. *)
Definition M (O A : Type) : Type := World O -> completion A * World O.

Definition ret {O A} (a : A) : M O A := fun w => (Normal a, w).

Definition bind {O A B} (m : M O A) (k : A -> M O B) : M O B :=
  fun w =>
    match m w with
    | (Normal a, w') => k a w'
    | (Throw e, w') => (Throw e, w')
    end.

Definition throw {O A} (e : Error) : M O A := fun w => (Throw e, w).

Definition get_this {O} : M O O := fun w => (Normal (this w), w).

Definition set_this {O} (o : O) : M O unit :=
  fun w => (Normal tt, mkWorld o (console w)).

Definition print {O} (line : console_line) : M O unit :=
  fun w => (Normal tt, mkWorld (this w) (console w ++ [line])).

Definition throws {O A} (r : completion A * World O) : Prop :=
  exists e, fst r = Throw e.

Declare Scope js_scope.
Delimit Scope js_scope with js.
Notation "x <- m ;; k" := (bind m (fun x => k))
  (at level 61, m at next level, right associativity) : js_scope.
Notation "m ;; k" := (bind m (fun _ => k))
  (at level 61, right associativity) : js_scope.

End Effects.

(* ================================================================== *)
(** * class BankOfKigali *)
(* ================================================================== *)

Module BankOfKigali.
Import JSNumber Host Effects.
Open Scope string_scope.
Open Scope float_scope.
Open Scope js_scope.

(** A value of type [number | string], as the setters accept. *)
Inductive number_or_string : Type :=
| ANumber (n : number)
| AString (s : string).

(** The private fields. *)
Record fields : Type := mkFields {
  _accountBalance : number;
  _loanBalance : number
}.

(** [new BankOfKigali()]: both balances start at [0]. *)
Definition new_BankOfKigali : fields := mkFields 0 0.

(** The four setters, as calls. *)
Inductive operation : Type :=
| Deposit (amount : number_or_string)
| Withdraw (amount : number_or_string)
| SetAccountBalance (newAccountBalance : number_or_string)
| SetLoanBalance (newLoanBalance : number_or_string).

Definition finite_fields (o : fields) : bool :=
  isFinite (_accountBalance o) && isFinite (_loanBalance o).

Section Class.

(** The conversion of a string to a number belongs to the host; the class
    is read for any such conversion. *)
Variable StringToNumber : string -> number.

(** [Number(v)] *)
Definition Number (v : number_or_string) : number :=
  match v with
  | ANumber n => n
  | AString s => StringToNumber s
  end.

(** How the console shows such a value. *)
Definition shown (v : number_or_string) : printed :=
  match v with
  | ANumber n => PNumber n
  | AString s => PText s
  end.

Definition get_accountBalance : M fields number :=
  o <- get_this ;; ret (_accountBalance o).

Definition get_loanBalance : M fields number :=
  o <- get_this ;; ret (_loanBalance o).

Definition set_accountBalance (newAccountBalance : number_or_string)
  : M fields unit :=
  let balance := Number newAccountBalance in
  if isFinite balance then
    o <- get_this ;;
    set_this (mkFields balance (_loanBalance o))
  else
    throw (new_Error "Number is not finite and invalid ...").

Definition set_loanBalance (newLoanBalance : number_or_string)
  : M fields unit :=
  let balance := Number newLoanBalance in
  if isFinite balance then
    o <- get_this ;;
    set_this (mkFields (_accountBalance o) balance)
  else
    throw (new_Error "Number is not finite and invalid ...").

Definition deposit (amount : number_or_string) : M fields unit :=
  let balance := Number amount in
  if balance <? 0 then throw (new_Error "Amount should be positive")
  else if isFinite balance then
    o <- get_this ;;
    set_this (mkFields (_accountBalance o + balance) (_loanBalance o)) ;;
    print (console_log [PText "You have successfully Deposited: "; PNumber balance]) ;;
    b <- get_accountBalance ;;
    print (console_log [PText "New Balance is: "; PNumber b])
  else throw (new_Error "Number is not finite and invalid ...").

Definition withdraw (amount : number_or_string) : M fields unit :=
  let balance := Number amount in
  if balance <? 0 then
    print (console_log [PText "Amount should be positive"])
  else
    b <- get_accountBalance ;;
    if b <? balance then
      print (console_log [PText "Insufficient Funds!"])
    else
      b' <- get_accountBalance ;;
      if balance <? b' then
        cur <- get_accountBalance ;;
        set_accountBalance (ANumber (cur - balance)) ;;
        print (console_log [PText "you have withdrown the amount: "; shown amount]) ;;
        o <- get_this ;;
        print (console_log [PText "New Balance: "; PNumber (_accountBalance o)])
      else ret tt.

Definition perform (op : operation) : M fields unit :=
  match op with
  | Deposit amount => deposit amount
  | Withdraw amount => withdraw amount
  | SetAccountBalance v => set_accountBalance v
  | SetLoanBalance v => set_loanBalance v
  end.

(** A sequence of operations, each one started whether the one before it
    completed or threw (the caller catches). *)
Fixpoint perform_all (ops : list operation) (w : World fields) : World fields :=
  match ops with
  | [] => w
  | op :: rest => perform_all rest (snd (perform op w))
  end.

(** ** Proofs *)

(** Unfolds the plumbing of a method body down to its tests. *)
Ltac body :=
  unfold perform, deposit, withdraw, set_accountBalance, set_loanBalance,
    get_accountBalance, get_loanBalance, bind, ret, throw, get_this,
    set_this, print in *;
  cbn [this console fst snd _accountBalance _loanBalance] in *.

(** [withdraw] with a negative amount, or one above the balance: one line is
    printed, nothing else happens, and the method returns normally. *)
Lemma kigali_withdraw_refuses (amount : number_or_string) (w : World fields) :
  (Number amount <? 0) = true
  \/ (_accountBalance (this w) <? Number amount) = true ->
  exists text,
    withdraw amount w
    = (Normal tt,
       mkWorld (this w) (console w ++ [console_log [PText text]])%list).
Proof.
  intros H. body.
  destruct (Number amount <? 0) eqn:Hneg.
  - eexists. reflexivity.
  - destruct H as [H|H]; [discriminate|]. rewrite H.
    eexists. reflexivity.
Qed.

(** C6: [withdraw] with a non-negative amount equal to the account balance
    does nothing at all: no branch is taken, so the fields and the console
    are as before and the method returns normally. *)
Theorem withdraw_whole_balance (amount : number_or_string) (w : World fields) :
  (0 <=? Number amount) = true ->
  (Number amount =? _accountBalance (this w)) = true ->
  withdraw amount w = (Normal tt, w).
Proof.
  intros Hnonneg Heq. body.
  rewrite (leb_not_gt Hnonneg).
  destruct (eqb_not_ltb Heq) as [Hlt Hgt].
  rewrite Hgt, Hlt. reflexivity.
Qed.

(** X11: An operation that throws has changed nothing by then: neither field,
    nor the console. *)
Lemma throw_changes_nothing (op : operation) (w w' : World fields) (e : Error) :
  perform op w = (Throw e, w') -> w' = w.
Proof.
  destruct op as [amount|amount|v|v]; body.
  - destruct (Number amount <? 0); [congruence|].
    destruct (isFinite (Number amount)); congruence.
  - destruct (Number amount <? 0); [congruence|].
    destruct (_accountBalance (this w) <? Number amount); [congruence|].
    destruct (Number amount <? _accountBalance (this w)); [|congruence].
    cbn [Number].
    destruct (isFinite (_accountBalance (this w) - Number amount));
      congruence.
  - destruct (isFinite (Number v)); congruence.
  - destruct (isFinite (Number v)); congruence.
Qed.

(** X12: Every operation but [deposit] stores only what passed
    [Number.isFinite], so it keeps finite fields finite. *)
Lemma checked_operations_keep_finite (op : operation) (w : World fields) :
  (forall amount, op <> Deposit amount) ->
  finite_fields (this w) = true ->
  finite_fields (this (snd (perform op w))) = true.
Proof.
  intros Hop Hfin. unfold finite_fields in *.
  apply andb_true_iff in Hfin. destruct Hfin as [Ha Hl].
  destruct op as [amount|amount|v|v]; body.
  - exfalso. now apply (Hop amount).
  - destruct (Number amount <? 0); [simpl; now rewrite Ha, Hl|].
    destruct (_accountBalance (this w) <? Number amount);
      [simpl; now rewrite Ha, Hl|].
    destruct (Number amount <? _accountBalance (this w));
      [|simpl; now rewrite Ha, Hl].
    cbn [Number].
    destruct (isFinite (_accountBalance (this w) - Number amount)) eqn:Hf;
      simpl; [now rewrite Hf, Hl | now rewrite Ha, Hl].
  - destruct (isFinite (Number v)) eqn:Hf; simpl;
      [now rewrite Hf, Hl | now rewrite Ha, Hl].
  - destruct (isFinite (Number v)) eqn:Hf; simpl;
      [now rewrite Ha, Hf | now rewrite Ha, Hl].
Qed.

(** C7, where it breaks: [deposit] checks the amount but not the sum.  On
    a new account, depositing [Number.MAX_VALUE] twice completes normally
    both times and leaves [_accountBalance] at [Infinity]. *)
Theorem deposit_overflows_to_Infinity :
  let w0 := mkWorld new_BankOfKigali [] in
  let w1 := snd (deposit (ANumber MAX_VALUE) w0) in
  let w2 := perform_all [Deposit (ANumber MAX_VALUE);
                         Deposit (ANumber MAX_VALUE)] w0 in
  finite_fields (this w0) = true
  /\ isFinite MAX_VALUE = true
  /\ fst (deposit (ANumber MAX_VALUE) w0) = Normal tt
  /\ fst (deposit (ANumber MAX_VALUE) w1) = Normal tt
  /\ _accountBalance (this w2) = infinity
  /\ finite_fields (this w2) = false.
Proof. vm_compute. repeat split; reflexivity. Qed.

(** ** More on the four setters *)

(** X7: [deposit] accepts exactly the amounts that are finite and not negative.
    It then adds the amount to the account balance, leaves the loan balance
    alone and prints two lines; any other amount makes it throw. *)
Theorem deposit_accepts_finite_non_negative (amount : number_or_string)
        (w : World fields) :
  (fst (deposit amount w) = Normal tt
   <-> (0 <=? Number amount) = true /\ isFinite (Number amount) = true)
  /\ (throws (deposit amount w)
      <-> ~ ((0 <=? Number amount) = true /\ isFinite (Number amount) = true))
  /\ (fst (deposit amount w) = Normal tt ->
      snd (deposit amount w)
      = mkWorld
          (mkFields (_accountBalance (this w) + Number amount)
                    (_loanBalance (this w)))
          (console w ++
           [console_log [PText "You have successfully Deposited: ";
                         PNumber (Number amount)];
            console_log [PText "New Balance is: ";
                         PNumber (_accountBalance (this w) + Number amount)]])%list).
Proof.
  unfold throws. body.
  assert (Hcase :
    ((0 <=? Number amount) = true /\ isFinite (Number amount) = true)
    <-> ((Number amount <? 0) = false /\ isFinite (Number amount) = true)).
  { split; intros [H1 H2]; (split; [|exact H2]);
      apply (@not_negative_iff _ (@finite_not_nan _ H2)); exact H1. }
  rewrite Hcase. clear Hcase.
  destruct (Number amount <? 0), (isFinite (Number amount)); cbn [fst snd].
  - split; [|split].
    + split; [discriminate | intros [? _]; congruence].
    + split; [intros _ [? _]; congruence | intros _; eexists; reflexivity].
    + discriminate.
  - split; [|split].
    + split; [discriminate | intros [? _]; congruence].
    + split; [intros _ [? _]; congruence | intros _; eexists; reflexivity].
    + discriminate.
  - split; [|split].
    + split; [intros _; split; reflexivity | reflexivity].
    + split; [intros [e He]; discriminate
             | intros H; exfalso; apply H; split; reflexivity].
    + intros _. rewrite <- app_assoc. reflexivity.
  - split; [|split].
    + split; [discriminate | intros [_ ?]; congruence].
    + split; [intros _ [_ ?]; congruence | intros _; eexists; reflexivity].
    + discriminate.
Qed.

(** X8: [withdraw] with an amount that [Number] turns into [NaN] does nothing
    at all: no message, no change, no error. *)
Theorem withdraw_NaN_is_ignored (amount : number_or_string)
        (w : World fields) :
  is_nan (Number amount) = true -> withdraw amount w = (Normal tt, w).
Proof.
  intros Hnan. body.
  destruct (@nan_compares_false (Number amount) 0 Hnan) as (H0 & _).
  destruct (@nan_compares_false (Number amount) (_accountBalance (this w)) Hnan)
    as (Hlt & Hgt & _).
  rewrite H0, Hgt, Hlt. reflexivity.
Qed.

(** X9: Only the [loanBalance] setter changes the loan balance, and it changes
    nothing but the loan balance. *)
Theorem loan_balance_is_separate (op : operation) (w : World fields) :
  ((forall v, op <> SetLoanBalance v) ->
   _loanBalance (this (snd (perform op w))) = _loanBalance (this w))
  /\ ((exists v, op = SetLoanBalance v) ->
      _accountBalance (this (snd (perform op w))) = _accountBalance (this w)
      /\ console (snd (perform op w)) = console w).
Proof.
  split.
  - intros Hop. destruct op as [amount|amount|v|v]; body.
    + destruct (Number amount <? 0); [reflexivity|].
      destruct (isFinite (Number amount)); reflexivity.
    + destruct (Number amount <? 0); [reflexivity|].
      destruct (_accountBalance (this w) <? Number amount); [reflexivity|].
      destruct (Number amount <? _accountBalance (this w)); [|reflexivity].
      cbn [Number].
      destruct (isFinite (_accountBalance (this w) - Number amount));
        reflexivity.
    + destruct (isFinite (Number v)); reflexivity.
    + exfalso. now apply (Hop v).
  - intros [v ->]. body. destruct (isFinite (Number v)); split; reflexivity.
Qed.

(** X10: Once the account balance is [Infinity], every withdrawal of a finite
    amount that is not negative throws, and changes nothing. *)
Theorem withdraw_from_Infinity_throws (amount : number_or_string)
        (w : World fields) :
  _accountBalance (this w) = infinity ->
  isFinite (Number amount) = true ->
  (0 <=? Number amount) = true ->
  withdraw amount w
  = (Throw (new_Error "Number is not finite and invalid ..."), w).
Proof.
  intros Hinf Hfin Hnonneg.
  destruct w as [[balance loan] c]. cbn in Hinf. subst balance.
  destruct (@finite_below_infinity _ Hfin) as [Hlt Hgt].
  body. rewrite (leb_not_gt Hnonneg).
  cbn [this _accountBalance]. rewrite Hgt.
  cbn [this _accountBalance]. rewrite Hlt.
  cbn [this _accountBalance Number].
  rewrite (@infinity_sub_finite _ Hfin). reflexivity.
Qed.

End Class.

(** The script under the class: deposit 100500, withdraw 500, set the
    balance to 200, try to withdraw 1000000, deposit 1763. *)
Example client_script :
  this (perform_all (fun _ => nan)
          [Deposit (ANumber 100500); Withdraw (ANumber 500);
           SetAccountBalance (ANumber 200); Withdraw (ANumber 1000000);
           Deposit (ANumber 1763)]
          (mkWorld new_BankOfKigali []))
  = mkFields 1963 0.
Proof. vm_compute. reflexivity. Qed.

(** C6, at a balance of 100 withdrawn whole. *)
Lemma withdraw_whole_balance_witness :
  (0 <=? 100) = true
  /\ (100 =? 100) = true
  /\ withdraw (fun _ => nan) (ANumber 100) (mkWorld (mkFields 100 0) [])
     = (Normal tt, mkWorld (mkFields 100 0) []).
Proof.
  split; [reflexivity|]. split; [reflexivity|].
  apply (@withdraw_whole_balance (fun _ => nan) (ANumber 100)
           (mkWorld (mkFields 100 0) [])); reflexivity.
Defined.

Lemma deposit_accepts_finite_non_negative_witness :
  fst (deposit (fun _ => nan) (ANumber 100500) (mkWorld new_BankOfKigali []))
  = Normal tt
  /\ throws (deposit (fun _ => nan) (AString "abc")
               (mkWorld new_BankOfKigali []))
  /\ snd (deposit (fun _ => nan) (ANumber 100500)
            (mkWorld new_BankOfKigali []))
     = mkWorld (mkFields 100500 0)
         [console_log [PText "You have successfully Deposited: "; PNumber 100500];
          console_log [PText "New Balance is: "; PNumber 100500]].
Proof.
  destruct (@deposit_accepts_finite_non_negative (fun _ => nan)
              (ANumber 100500) (mkWorld new_BankOfKigali []))
    as (Hok & _ & Hstate).
  destruct (@deposit_accepts_finite_non_negative (fun _ => nan)
              (AString "abc") (mkWorld new_BankOfKigali []))
    as (_ & Hthrow & _).
  assert (H : (0 <=? 100500) = true /\ isFinite 100500 = true)
    by (split; reflexivity).
  split; [apply Hok, H|]. split.
  - apply Hthrow. intros [Hle _]. vm_compute in Hle. discriminate.
  - rewrite (Hstate (proj2 Hok H)). reflexivity.
Defined.

Lemma withdraw_NaN_is_ignored_witness :
  withdraw (fun _ => nan) (AString "abc") (mkWorld (mkFields 200 0) [])
  = (Normal tt, mkWorld (mkFields 200 0) []).
Proof.
  apply (@withdraw_NaN_is_ignored (fun _ => nan) (AString "abc")
           (mkWorld (mkFields 200 0) [])).
  reflexivity.
Defined.

Lemma loan_balance_is_separate_witness :
  _loanBalance (this (snd (perform (fun _ => nan) (Deposit (ANumber 50))
                             (mkWorld (mkFields 200 7) []))))
  = 7
  /\ _accountBalance (this (snd (perform (fun _ => nan)
                                   (SetLoanBalance (ANumber 9))
                                   (mkWorld (mkFields 200 7) []))))
     = 200.
Proof.
  split.
  - apply (proj1 (@loan_balance_is_separate (fun _ => nan)
                    (Deposit (ANumber 50)) (mkWorld (mkFields 200 7) []))).
    intros v. discriminate.
  - apply (proj2 (@loan_balance_is_separate (fun _ => nan)
                    (SetLoanBalance (ANumber 9))
                    (mkWorld (mkFields 200 7) []))).
    eexists. reflexivity.
Defined.

Lemma withdraw_from_Infinity_throws_witness :
  withdraw (fun _ => nan) (ANumber 500) (mkWorld (mkFields infinity 0) [])
  = (Throw (new_Error "Number is not finite and invalid ..."),
     mkWorld (mkFields infinity 0) []).
Proof.
  apply (@withdraw_from_Infinity_throws (fun _ => nan) (ANumber 500)
           (mkWorld (mkFields infinity 0) [])); reflexivity.
Defined.

Lemma throw_changes_nothing_witness :
  snd (perform (fun _ => nan) (Deposit (ANumber (-1)))
         (mkWorld (mkFields 200 0) []))
  = mkWorld (mkFields 200 0) [].
Proof.
  apply (@throw_changes_nothing (fun _ => nan)
           (Deposit (ANumber (-1))) (mkWorld (mkFields 200 0) []) _
           (new_Error "Amount should be positive")).
  reflexivity.
Defined.

Lemma checked_operations_keep_finite_witness :
  finite_fields
    (this (snd (perform (fun _ => nan) (SetAccountBalance (ANumber infinity))
                  (mkWorld (mkFields 200 0) []))))
  = true.
Proof.
  apply (@checked_operations_keep_finite (fun _ => nan)
           (SetAccountBalance (ANumber infinity))
           (mkWorld (mkFields 200 0) [])).
  - intros amount. discriminate.
  - reflexivity.
Defined.

End BankOfKigali.

(* ================================================================== *)
(** * class BankAccount *)
(* ================================================================== *)

Module BankAccount.
Import JSNumber Host Effects.
Open Scope string_scope.
Open Scope float_scope.
Open Scope js_scope.

(** The private field. *)
Record fields : Type := mkFields { _balance : number }.

(** [new BankAccount()] *)
Definition new_BankAccount : fields := mkFields 0.

Definition get_balance : M fields number :=
  o <- get_this ;; ret (_balance o).

Definition deposit (amount : number) : M fields unit :=
  if 0 <? amount then
    o <- get_this ;;
    set_this (mkFields (_balance o + amount)) ;;
    print (console_log [PText "Deposited: "; PNumber amount])
  else
    print (console_log [PText "Deposit must be a positive number."]).

Definition withdraw (amount : number) : M fields unit :=
  if amount <=? 0 then
    print (console_log [PText "Withdrawal must be positive."])
  else
    o <- get_this ;;
    if _balance o <? amount then
      print (console_log [PText "Insufficient funds."])
    else
      o' <- get_this ;;
      set_this (mkFields (_balance o' - amount)) ;;
      print (console_log [PText "Withdrew: "; PNumber amount]).

(** ** Proofs *)

(** The demonstration: deposit 500, withdraw 100, try to withdraw 700; the
    balance is 400 and the console shows the three lines of the article. *)
Example account_demo :
  (deposit 500 ;; withdraw 100 ;; withdraw 700 ;; get_balance)
    (mkWorld new_BankAccount [])
  = (Normal 400,
     mkWorld (mkFields 400)
       [console_log [PText "Deposited: "; PNumber 500];
        console_log [PText "Withdrew: "; PNumber 100];
        console_log [PText "Insufficient funds."]]).
Proof. vm_compute. reflexivity. Qed.

(** [withdraw] with a negative amount, or one above the balance: one line is
    printed, the balance stays, and the method returns normally. *)
Lemma account_withdraw_refuses (amount : number) (w : World fields) :
  (amount <? 0) = true \/ (_balance (this w) <? amount) = true ->
  exists text,
    withdraw amount w
    = (Normal tt,
       mkWorld (this w) (console w ++ [console_log [PText text]])%list).
Proof.
  intros H. unfold withdraw, bind, get_this, print.
  destruct (amount <=? 0) eqn:Hle.
  - eexists. reflexivity.
  - destruct H as [H|H].
    + apply ltb_leb in H. congruence.
    + cbn [this console]. rewrite H. eexists. reflexivity.
Qed.

(** X13: Neither setter ever throws: whatever the amount, the call returns
    normally and has printed exactly one line. *)
Theorem account_setters_never_throw (amount : number) (w : World fields) :
  (exists line fields',
      deposit amount w
      = (Normal tt, mkWorld fields' (console w ++ [line])%list))
  /\ (exists line fields',
      withdraw amount w
      = (Normal tt, mkWorld fields' (console w ++ [line])%list)).
Proof.
  unfold deposit, withdraw, bind, get_this, set_this, print.
  cbn [this console]. split.
  - destruct (0 <? amount); do 2 eexists; reflexivity.
  - destruct (amount <=? 0); [do 2 eexists; reflexivity|].
    destruct (_balance (this w) <? amount); do 2 eexists; reflexivity.
Qed.

(** X14: [withdraw] lets [NaN] through both of its tests: the balance becomes
    [NaN] and the withdrawal is reported as done. *)
Theorem account_withdraw_NaN_spoils_balance (amount : number)
        (w : World fields) :
  is_nan amount = true ->
  withdraw amount w
  = (Normal tt,
     mkWorld (mkFields (_balance (this w) - amount))
             (console w ++ [console_log [PText "Withdrew: "; PNumber amount]])%list)
  /\ is_nan (_balance (this (snd (withdraw amount w)))) = true.
Proof.
  intros Hnan.
  destruct (@nan_compares_false amount 0 Hnan) as (_ & _ & Hle & _).
  destruct (@nan_compares_false amount (_balance (this w)) Hnan)
    as (_ & Hgt & _).
  unfold withdraw, bind, get_this, set_this, print.
  rewrite Hle. cbn [this console]. rewrite Hgt. cbn [this console snd _balance].
  split; [reflexivity|]. now apply sub_nan.
Qed.

Lemma account_withdraw_NaN_spoils_balance_witness :
  withdraw nan (mkWorld (mkFields 400) [])
  = (Normal tt,
     mkWorld (mkFields (400 - nan))
             ([] ++ [console_log [PText "Withdrew: "; PNumber nan]])%list)
  /\ is_nan (_balance (this (snd (withdraw nan (mkWorld (mkFields 400) [])))))
     = true.
Proof.
  apply (@account_withdraw_NaN_spoils_balance nan (mkWorld (mkFields 400) [])).
  reflexivity.
Defined.

End BankAccount.

(* ================================================================== *)
(** * Withdrawals that are turned down *)
(* ================================================================== *)

Module InvalidWithdrawal.
Import JSNumber Host Effects.
Open Scope string_scope.
Open Scope float_scope.

(** C2 as the text has it, refuted: on a new account of either class a
    withdrawal of [-1] is negative, and a withdrawal of [700] exceeds the
    balance of [0]; none of the four calls throws.  Each prints its
    message and returns. *)
Lemma invalid_withdrawal_returns_normally :
  (-1 <? 0) = true
  /\ (0 <? 700) = true
  /\ BankOfKigali.withdraw (fun _ => nan) (BankOfKigali.ANumber (-1))
       (mkWorld BankOfKigali.new_BankOfKigali [])
     = (Normal tt, mkWorld BankOfKigali.new_BankOfKigali
                     [console_log [PText "Amount should be positive"]])
  /\ BankOfKigali.withdraw (fun _ => nan) (BankOfKigali.ANumber 700)
       (mkWorld BankOfKigali.new_BankOfKigali [])
     = (Normal tt, mkWorld BankOfKigali.new_BankOfKigali
                     [console_log [PText "Insufficient Funds!"]])
  /\ BankAccount.withdraw (-1) (mkWorld BankAccount.new_BankAccount [])
     = (Normal tt, mkWorld BankAccount.new_BankAccount
                     [console_log [PText "Withdrawal must be positive."]])
  /\ BankAccount.withdraw 700 (mkWorld BankAccount.new_BankAccount [])
     = (Normal tt, mkWorld BankAccount.new_BankAccount
                     [console_log [PText "Insufficient funds."]])
  /\ ~ throws (BankOfKigali.withdraw (fun _ => nan) (BankOfKigali.ANumber (-1))
                 (mkWorld BankOfKigali.new_BankOfKigali []))
  /\ ~ throws (BankAccount.withdraw (-1) (mkWorld BankAccount.new_BankAccount [])).
Proof.
  repeat split; try (vm_compute; reflexivity);
    intros [e He]; vm_compute in He; discriminate.
Qed.

(** C2, amended: in both classes, for every amount that is negative or
    exceeds the current balance, [withdraw] does not throw; it prints one
    line to the console, leaves the fields as they are and returns
    normally. *)
Theorem invalid_withdrawal_is_refused_without_throw :
  (forall (StringToNumber : string -> number)
          (amount : BankOfKigali.number_or_string)
          (w : World BankOfKigali.fields),
      (BankOfKigali.Number StringToNumber amount <? 0) = true
      \/ (BankOfKigali._accountBalance (this w)
          <? BankOfKigali.Number StringToNumber amount) = true ->
      exists text,
        BankOfKigali.withdraw StringToNumber amount w
        = (Normal tt,
           mkWorld (this w) (console w ++ [console_log [PText text]])%list))
  /\ (forall (amount : number) (w : World BankAccount.fields),
      (amount <? 0) = true
      \/ (BankAccount._balance (this w) <? amount) = true ->
      exists text,
        BankAccount.withdraw amount w
        = (Normal tt,
           mkWorld (this w) (console w ++ [console_log [PText text]])%list)).
Proof.
  split.
  - intros StringToNumber amount w H.
    now apply BankOfKigali.kigali_withdraw_refuses.
  - intros amount w H. now apply BankAccount.account_withdraw_refuses.
Qed.

(** C2 amended, at a withdrawal of [-5] from a [BankOfKigali] account
    holding 200 and of 700 from a [BankAccount] holding 400. *)
Lemma invalid_withdrawal_is_refused_witness :
  (-5 <? 0) = true
  /\ (400 <? 700) = true
  /\ (exists text,
      BankOfKigali.withdraw (fun _ => nan) (BankOfKigali.ANumber (-5))
        (mkWorld (BankOfKigali.mkFields 200 0) [])
      = (Normal tt, mkWorld (BankOfKigali.mkFields 200 0)
                      ([] ++ [console_log [PText text]])%list))
  /\ (exists text,
      BankAccount.withdraw 700 (mkWorld (BankAccount.mkFields 400) [])
      = (Normal tt, mkWorld (BankAccount.mkFields 400)
                      ([] ++ [console_log [PText text]])%list)).
Proof.
  destruct invalid_withdrawal_is_refused_without_throw as [Hk Ha].
  split; [reflexivity|]. split; [reflexivity|]. split.
  - apply (Hk (fun _ => nan) (BankOfKigali.ANumber (-5))
              (mkWorld (BankOfKigali.mkFields 200 0) [])).
    left. reflexivity.
  - apply (Ha 700 (mkWorld (BankAccount.mkFields 400) [])).
    right. reflexivity.
Defined.

End InvalidWithdrawal.

(* ================================================================== *)
(** * class Measurement *)
(* ================================================================== *)

Module Measurement.
Import JSNumber Host Effects.
Open Scope string_scope.
Open Scope float_scope.
Open Scope js_scope.

(** A value of type [number | string | boolean]. *)
Inductive input_value : Type :=
| INumber (n : number)
| IString (s : string)
| IBoolean (b : bool).

Record fields : Type := mkFields { _value : number }.

(** [new Measurement()] *)
Definition new_Measurement : fields := mkFields 0.

Section Class.

Variable StringToNumber : string -> number.

(** [Number(input)]: [true] is [1], [false] is [0]. *)
Definition Number (input : input_value) : number :=
  match input with
  | INumber n => n
  | IString s => StringToNumber s
  | IBoolean true => 1
  | IBoolean false => 0
  end.

Definition get_value : M fields number :=
  o <- get_this ;; ret (_value o).

(** [set value(input)]: what is not a finite number is stored as [0]. *)
Definition set_value (input : input_value) : M fields unit :=
  let num := Number input in
  set_this (mkFields (if isFinite num then num else 0)).

(** The setter of the article's first version: it throws instead. *)
Definition set_value_or_throw (newValue : number) : M fields unit :=
  if isFinite newValue then set_this (mkFields newValue)
  else throw (new_Error "Invalid value.").

(** X15: However the object was before and whatever is assigned, after the
    assignment the stored value is a finite number: the converted input
    when that is finite, [0] when it is not; the setter never throws and
    prints nothing. *)
Theorem measurement_stores_finite (input : input_value) (w : World fields) :
  fst (set_value input w) = Normal tt
  /\ console (snd (set_value input w)) = console w
  /\ isFinite (_value (this (snd (set_value input w)))) = true
  /\ fst (get_value (snd (set_value input w)))
     = Normal (if isFinite (Number input) then Number input else 0).
Proof.
  unfold set_value, get_value, set_this, get_this, bind, ret.
  cbn [fst snd this console _value].
  destruct (isFinite (Number input)) eqn:Hfin;
    repeat split; try reflexivity; assumption.
Qed.

(** X16: The throwing setter keeps a finite value finite: it stores only finite
    numbers, and when it throws the value is the one from before. *)
Theorem measurement_checked_setter (newValue : number) (w : World fields) :
  isFinite (_value (this w)) = true ->
  isFinite (_value (this (snd (set_value_or_throw newValue w)))) = true
  /\ (throws (set_value_or_throw newValue w) ->
      snd (set_value_or_throw newValue w) = w)
  /\ (throws (set_value_or_throw newValue w)
      <-> isFinite newValue = false).
Proof.
  intros Hold. unfold throws, set_value_or_throw, set_this, throw.
  destruct (isFinite newValue) eqn:Hfin; cbn [fst snd this _value].
  - repeat split; try assumption; try discriminate.
    + intros [e He]. discriminate.
    + intros [e He]. discriminate.
  - repeat split; try assumption; try reflexivity.
    intros _. eexists. reflexivity.
Qed.

End Class.

Lemma measurement_checked_setter_witness :
  isFinite (_value (this (snd (set_value_or_throw infinity
                                 (mkWorld (mkFields 42) []))))) = true
  /\ throws (set_value_or_throw infinity (mkWorld (mkFields 42) [])).
Proof.
  destruct (@measurement_checked_setter infinity (mkWorld (mkFields 42) []))
    as (Hfin & _ & Hthrows); [reflexivity|].
  split; [exact Hfin|]. apply Hthrows. reflexivity.
Defined.

(** The article's calls: ["23.5"] is stored as [23.5] (by a conversion that
    reads it so), ["invalid"] as [0]. *)
Example measurement_demo :
  let StringToNumber := fun s => if String.eqb s "23.5" then 23.5 else nan in
  fst ((set_value StringToNumber (IString "23.5") ;; get_value)
         (mkWorld new_Measurement [])) = Normal 23.5
  /\ fst ((set_value StringToNumber (IString "invalid") ;; get_value)
            (mkWorld new_Measurement [])) = Normal 0.
Proof. split; vm_compute; reflexivity. Qed.

End Measurement.

(* ================================================================== *)
(** * [Result<T, E>] and [divide] *)
(* ================================================================== *)

Module Division.
Import JSNumber.
Open Scope string_scope.
Open Scope float_scope.

(** [{ success: true; value: T } | { success: false; error: E }] *)
Inductive Result (T E : Type) : Type :=
| success (value : T)
| failure (error : E).
Arguments success {T E} value.
Arguments failure {T E} error.

Definition divide (a b : number) : Result number string :=
  if b =? 0 then failure "Division by zero"
  else success (a / b).



(** The article's call: [divide(10, 2)] succeeds with [5]; a zero of either
    sign as divisor fails. *)
Example divide_demo :
  divide 10 2 = success 5
  /\ divide 10 0 = failure "Division by zero"
  /\ divide 10 (-0) = failure "Division by zero".
Proof. repeat split; vm_compute; reflexivity. Qed.

End Division.

(* ================================================================== *)
(** * class CreditCard *)
(* ================================================================== *)

Module Payment.
Import JSString JSNumber Host Effects.
Open Scope string_scope.
Open Scope js_scope.

(** The fields: [name] comes from [PaymentMethod], the other two are the
    constructor's parameter properties. *)
Record CreditCard : Type := mkCreditCard {
  name : string;
  cardNumber : string;
  expiry : string
}.

(** [new CreditCard(cardNumber, expiry)], with [super("Credit Card")]. *)
Definition new_CreditCard (cardNumber expiry : string) : CreditCard :=
  mkCreditCard "Credit Card" cardNumber expiry.

Definition validate (this : CreditCard) : bool :=
  (len (cardNumber this) =? 16)%Z && includes (expiry this) "/".

Definition process (amount : number) : M CreditCard bool :=
  o <- get_this ;;
  if negb (validate o) then
    print (console_log [PText "Card is not valid."]) ;;
    ret false
  else
    print (console_log [PText "Paid $"; PNumber amount; PText " using ";
                        PText (name o)]) ;;
    ret true.

(** X18: [process] answers [true] exactly for a card whose number has 16 code
    units and whose expiry has a slash somewhere, and [false] otherwise.
    Either way it prints one line, does not throw and leaves the card as it
    is. *)
Theorem process_accepts_exactly_valid_cards (amount : number)
        (w : World CreditCard) :
  (exists line,
      snd (process amount w)
      = mkWorld (this w) (console w ++ [line])%list)
  /\ (fst (process amount w) = Normal true
      <-> String.length (cardNumber (this w)) = 16%nat
          /\ exists before after,
               expiry (this w) = before ++ "/" ++ after)
  /\ (fst (process amount w) = Normal false
      <-> ~ (String.length (cardNumber (this w)) = 16%nat
             /\ exists before after,
                  expiry (this w) = before ++ "/" ++ after)).
Proof.
  assert (Hv : validate (this w) = true
               <-> String.length (cardNumber (this w)) = 16%nat
                   /\ exists before after,
                        expiry (this w) = before ++ "/" ++ after).
  { unfold validate. rewrite andb_true_iff, includes_spec, Z.eqb_eq.
    unfold len. split; intros [H1 H2]; (split; [lia | exact H2]). }
  unfold process, bind, get_this, print, ret. cbn [this console].
  destruct (validate (this w)) eqn:E; cbn [negb fst snd].
  - split; [eexists; reflexivity|]. split.
    + split; [intros _; now apply Hv | reflexivity].
    + split; [discriminate | intros H; exfalso; apply H; now apply Hv].
  - split; [eexists; reflexivity|]. split.
    + split; [discriminate | intros H; apply Hv in H; discriminate].
    + split; [intros _ H; apply Hv in H; discriminate | reflexivity].
Qed.

(** The article's card is accepted. *)
Example card_demo :
  fst (process 100 (mkWorld (new_CreditCard "1234567812345678" "12/25") []))
  = Normal true.
Proof. vm_compute. reflexivity. Qed.

End Payment.

(* ================================================================== *)
(** * Vehicle, DeliveryTruck, DeliveryDrone and FleetManager *)
(* ================================================================== *)

Module Fleet.
Import JSString JSNumber Host Effects.
Open Scope string_scope.
Open Scope float_scope.
Open Scope js_scope.

(** ['available' | 'in-transit' | 'maintenance'] *)
Inductive Status : Type := available | in_transit | maintenance.

Definition status_text (s : Status) : string :=
  match s with
  | available => "available"
  | in_transit => "in-transit"
  | maintenance => "maintenance"
  end.

(** The protected fields of [Vehicle]. *)
Record VehicleFields : Type := mkVehicle {
  id : string;
  currentLocation : string;
  status : Status
}.

(** An object of one of the two concrete classes: the inherited fields and
    the class's own two numbers. *)
Inductive Vehicle : Type :=
| DeliveryTruck (base : VehicleFields) (cargoCapacity currentCargo : number)
| DeliveryDrone (base : VehicleFields) (maxAltitude currentAltitude : number).

Definition base_of (v : Vehicle) : VehicleFields :=
  match v with
  | DeliveryTruck b _ _ => b
  | DeliveryDrone b _ _ => b
  end.

Definition with_base (f : VehicleFields -> VehicleFields) (v : Vehicle) : Vehicle :=
  match v with
  | DeliveryTruck b c k => DeliveryTruck (f b) c k
  | DeliveryDrone b m k => DeliveryDrone (f b) m k
  end.

(** [this.status = s] and [this.currentLocation = l] *)
Definition set_status (s : Status) : Vehicle -> Vehicle :=
  with_base (fun b => mkVehicle (id b) (currentLocation b) s).

Definition set_currentLocation (l : string) : Vehicle -> Vehicle :=
  with_base (fun b => mkVehicle (id b) l (status b)).

(** The constructors: [super(id, location)] makes the vehicle available. *)
Definition new_DeliveryTruck (id location : string) (capacity : number) : Vehicle :=
  DeliveryTruck (mkVehicle id location available) capacity 0.

Definition new_DeliveryDrone (id location : string) (maxAlt : number) : Vehicle :=
  DeliveryDrone (mkVehicle id location available) maxAlt 0.

(** Objects live in a heap and are handed around by reference: a reference
    is a position in [objects].  [vehicles] is the array field of the one
    [FleetManager]; the same reference may sit in it more than once. *)
Record Memory : Type := mkMemory {
  objects : list Vehicle;
  vehicles : list nat
}.

(** The heap with the object at [a] replaced. *)
Fixpoint replace_at (a : nat) (v : Vehicle) (h : list Vehicle) {struct h}
  : list Vehicle :=
  match h with
  | [] => []
  | x :: rest =>
      match a with
      | O => v :: rest
      | S a' => x :: replace_at a' v rest
      end
  end.

Definition deref (a : nat) : M Memory (option Vehicle) :=
  m <- get_this ;; ret (nth_error (objects m) a).

(** Apply a field update to the object behind [a]. *)
Definition update_object (a : nat) (f : Vehicle -> Vehicle) : M Memory unit :=
  m <- get_this ;;
  match nth_error (objects m) a with
  | Some v => set_this (mkMemory (replace_at a (f v) (objects m)) (vehicles m))
  | None => ret tt
  end.

(** ** [Vehicle] *)

Definition getStatus (v : Vehicle) : string :=
  "Vehicle " ++ id (base_of v) ++ " is currently "
  ++ status_text (status (base_of v)) ++ " at "
  ++ currentLocation (base_of v).

(** The line each class prints on the way. *)
Definition departure_line (v : Vehicle) (destination : string) : console_line :=
  match v with
  | DeliveryTruck b _ _ =>
      console_log [PText ("Truck " ++ id b ++ " is now driving from "
                          ++ currentLocation b ++ " to " ++ destination)]
  | DeliveryDrone b _ _ =>
      console_log [PText ("Drone " ++ id b ++ " is now flying from "
                          ++ currentLocation b ++ " to " ++ destination)]
  end.

(** [moveTo], the same in both classes but for the printed line. *)
Definition moveTo (a : nat) (destination : string) : M Memory unit :=
  ov <- deref a ;;
  match ov with
  | None => ret tt
  | Some v =>
      print (departure_line v destination) ;;
      update_object a (set_status in_transit) ;;
      update_object a (set_currentLocation destination) ;;
      update_object a (set_status available)
  end.

Definition calculateFuelEfficiency (v : Vehicle) : number :=
  match v with
  | DeliveryTruck _ cargoCapacity currentCargo =>
      let baseEfficiency := 8.0 in
      let loadFactor :=
        1 - (currentCargo / cargoCapacity) * 0x1.3333333333333p-2 (* 0.3 *) in
      baseEfficiency * loadFactor
  | DeliveryDrone _ maxAltitude currentAltitude =>
      let optimalAltitude := maxAltitude * 0x1.6666666666666p-1 (* 0.7 *) in
      let altitudeFactor :=
        1 - abs (currentAltitude - optimalAltitude) / optimalAltitude * 0.5 in
      15.0 * altitudeFactor
  end.

(** [DeliveryTruck.loadCargo] *)
Definition loadCargo (a : nat) (weight : number) : M Memory unit :=
  ov <- deref a ;;
  match ov with
  | Some (DeliveryTruck b cargoCapacity currentCargo) =>
      if cargoCapacity <? currentCargo + weight
      then throw (new_Error "Exceeds cargo capacity")
      else update_object a (fun _ =>
             DeliveryTruck b cargoCapacity (currentCargo + weight))
  | _ => ret tt
  end.

(** [DeliveryDrone.ascend] *)
Definition ascend (a : nat) (height : number) : M Memory unit :=
  ov <- deref a ;;
  match ov with
  | Some (DeliveryDrone b maxAltitude currentAltitude) =>
      if maxAltitude <? currentAltitude + height
      then throw (new_Error "Exceeds maximum altitude")
      else update_object a (fun _ =>
             DeliveryDrone b maxAltitude (currentAltitude + height))
  | _ => ret tt
  end.

(** ** [FleetManager] *)

Definition addVehicle (vehicle : nat) : M Memory unit :=
  m <- get_this ;;
  set_this (mkMemory (objects m) (vehicles m ++ [vehicle])).

(** The body of the loop of [dispatchAllTo], for one element of the array. *)
Definition dispatch_one (a : nat) (destination : string) : M Memory unit :=
  ov <- deref a ;;
  match ov with
  | None => ret tt
  | Some vehicle =>
      if includes (getStatus vehicle) "available" then
        moveTo a destination ;;
        ov' <- deref a ;;
        match ov' with
        | None => ret tt
        | Some vehicle' =>
            print (console_log [PText "Estimated efficiency: ";
                                PNumber (calculateFuelEfficiency vehicle');
                                PText " units per mile"])
        end
      else ret tt
  end.

Fixpoint dispatch_each (refs : list nat) (destination : string) : M Memory unit :=
  match refs with
  | [] => ret tt
  | a :: rest => dispatch_one a destination ;; dispatch_each rest destination
  end.

Definition dispatchAllTo (destination : string) : M Memory unit :=
  m <- get_this ;; dispatch_each (vehicles m) destination.

(** The line feed that [join] puts between the reports. *)
Definition newline : string := String (Ascii.ascii_of_nat 10) "".

Definition generateFleetReport : M Memory string :=
  m <- get_this ;;
  ret (String.concat newline
         (flat_map (fun a => match nth_error (objects m) a with
                             | Some v => [getStatus v]
                             | None => []
                             end)
                   (vehicles m))).

(** Where a vehicle is after a move: at the destination, available. *)
Definition arrived (destination : string) (v : Vehicle) : Vehicle :=
  with_base (fun b => mkVehicle (id b) destination available) v.

(** What the loop of [dispatchAllTo] leaves behind [a]: the object is moved
    when [a] is in the array and the report of the object contains the word
    "available", and is as before otherwise. *)
Definition after_dispatch (refs : list nat) (destination : string)
           (h : list Vehicle) (a : nat) : option Vehicle :=
  option_map
    (fun v =>
       if existsb (Nat.eqb a) refs && includes (getStatus v) "available"
       then arrived destination v
       else v)
    (nth_error h a).

(** ** The heap *)

Lemma nth_error_replace_at (a b : nat) (v : Vehicle) (h : list Vehicle) :
  nth_error (replace_at a v h) b
  = if Nat.eqb a b then option_map (fun _ => v) (nth_error h b)
    else nth_error h b.
Proof.
  revert a b. induction h as [|x h IH]; intros a b.
  - destruct a, b; reflexivity || (simpl; now destruct (Nat.eqb _ _)).
  - destruct a as [|a], b as [|b]; simpl; try reflexivity. apply IH.
Qed.

Lemma replace_at_twice (a : nat) (u v : Vehicle) (h : list Vehicle) :
  replace_at a v (replace_at a u h) = replace_at a v h.
Proof.
  revert a. induction h as [|x h IH]; intros a; [reflexivity|].
  destruct a as [|a]; simpl; [reflexivity|]. now rewrite IH.
Qed.

Lemma nth_error_replace_at_same (a : nat) (u v : Vehicle) (h : list Vehicle) :
  nth_error h a = Some u -> nth_error (replace_at a v h) a = Some v.
Proof.
  intros H. rewrite nth_error_replace_at, Nat.eqb_refl, H. reflexivity.
Qed.

(** ** Single methods *)

Lemma arrived_spec (destination : string) (v : Vehicle) :
  set_status available
    (set_currentLocation destination (set_status in_transit v))
  = arrived destination v.
Proof. destruct v as [[i l st] c k|[i l st] m k]; reflexivity. Qed.

Lemma arrived_twice (destination : string) (v : Vehicle) :
  arrived destination (arrived destination v) = arrived destination v.
Proof. destruct v as [[i l st] c k|[i l st] m k]; reflexivity. Qed.

(** The report of an available vehicle contains the word. *)
Lemma report_of_available (v : Vehicle) :
  status (base_of v) = available ->
  includes (getStatus v) "available" = true.
Proof.
  intros H. apply includes_spec. unfold getStatus. rewrite H.
  exists ("Vehicle " ++ id (base_of v) ++ " is currently "),
         (" at " ++ currentLocation (base_of v)).
  now rewrite !append_assoc.
Qed.

Lemma status_arrived (destination : string) (v : Vehicle) :
  status (base_of (arrived destination v)) = available
  /\ currentLocation (base_of (arrived destination v)) = destination
  /\ id (base_of (arrived destination v)) = id (base_of v).
Proof. destruct v; repeat split. Qed.

(** [moveTo] on a live reference: one line, and the object arrives. *)
Lemma moveTo_run (a : nat) (destination : string) (v : Vehicle)
      (m : Memory) (c : Console) :
  nth_error (objects m) a = Some v ->
  moveTo a destination (mkWorld m c)
  = (Normal tt,
     mkWorld (mkMemory (replace_at a (arrived destination v) (objects m))
                       (vehicles m))
             (c ++ [departure_line v destination])%list).
Proof.
  intros Hv. unfold moveTo, deref, update_object, bind, get_this, set_this,
    print, ret.
  cbn [this console objects vehicles]. rewrite Hv.
  cbn [this console objects vehicles]. rewrite Hv.
  cbn [this console objects vehicles].
  rewrite (@nth_error_replace_at_same _ _ _ _ Hv).
  cbn [this console objects vehicles].
  rewrite replace_at_twice.
  rewrite (@nth_error_replace_at_same _ _ _ _ Hv).
  cbn [this console objects vehicles].
  rewrite replace_at_twice, arrived_spec. reflexivity.
Qed.

(** One round of the loop, computed. *)
Lemma dispatch_one_eq (a : nat) (destination : string) (m : Memory)
      (c : Console) :
  dispatch_one a destination (mkWorld m c)
  = match nth_error (objects m) a with
    | Some v =>
        if includes (getStatus v) "available" then
          (Normal tt,
           mkWorld
             (mkMemory (replace_at a (arrived destination v) (objects m))
                       (vehicles m))
             (c ++ [departure_line v destination;
                    console_log
                      [PText "Estimated efficiency: ";
                       PNumber (calculateFuelEfficiency (arrived destination v));
                       PText " units per mile"]])%list)
        else (Normal tt, mkWorld m c)
    | None => (Normal tt, mkWorld m c)
    end.
Proof.
  unfold dispatch_one, deref, bind, get_this, ret, print.
  cbn [this console].
  destruct (nth_error (objects m) a) as [v|] eqn:Hv; [|reflexivity].
  destruct (includes (getStatus v) "available"); [|reflexivity].
  rewrite (@moveTo_run _ _ _ _ _ Hv).
  cbn [this console objects vehicles].
  rewrite (@nth_error_replace_at_same _ _ _ _ Hv).
  cbn [this console]. now rewrite <- app_assoc.
Qed.

(** One round of the loop: it returns normally, keeps the array, and moves
    the object or leaves it according to its report. *)
Lemma dispatch_one_run (a : nat) (destination : string) (w : World Memory) :
  fst (dispatch_one a destination w) = Normal tt
  /\ vehicles (this (snd (dispatch_one a destination w))) = vehicles (this w)
  /\ forall b,
       nth_error (objects (this (snd (dispatch_one a destination w)))) b
       = after_dispatch [a] destination (objects (this w)) b.
Proof.
  destruct w as [m c]. rewrite dispatch_one_eq. unfold after_dispatch.
  cbn [this existsb].
  destruct (nth_error (objects m) a) as [v|] eqn:Hv.
  - destruct (includes (getStatus v) "available") eqn:Hinc;
      cbn [fst snd this objects vehicles];
      (split; [reflexivity|]); (split; [reflexivity|]); intros b.
    + rewrite nth_error_replace_at, (Nat.eqb_sym a b).
      destruct (Nat.eqb b a) eqn:Hab;
        [|now destruct (nth_error (objects m) b)].
      apply Nat.eqb_eq in Hab. subst b. rewrite Hv. cbn [option_map orb andb].
      now rewrite Hinc.
    + destruct (Nat.eqb b a) eqn:Hab;
        [|now destruct (nth_error (objects m) b)].
      apply Nat.eqb_eq in Hab. subst b. rewrite Hv. cbn [option_map orb andb].
      now rewrite Hinc.
  - cbn [fst snd this objects vehicles].
    split; [reflexivity|]. split; [reflexivity|]. intros b.
    destruct (Nat.eqb b a) eqn:Hab;
      [|now destruct (nth_error (objects m) b)].
    apply Nat.eqb_eq in Hab. subst b. now rewrite Hv.
Qed.

Lemma dispatch_each_run (refs : list nat) (destination : string) :
  forall w : World Memory,
    fst (dispatch_each refs destination w) = Normal tt
    /\ vehicles (this (snd (dispatch_each refs destination w)))
       = vehicles (this w)
    /\ forall b,
         nth_error (objects (this (snd (dispatch_each refs destination w)))) b
         = after_dispatch refs destination (objects (this w)) b.
Proof.
  induction refs as [|a refs IH]; intros w.
  - cbn. split; [reflexivity|]. split; [reflexivity|].
    intros b. unfold after_dispatch. cbn.
    destruct (nth_error (objects (this w)) b); reflexivity.
  - cbn [dispatch_each]. unfold bind.
    destruct (dispatch_one_run a destination w) as (Hn & Hv & Ho).
    destruct (dispatch_one a destination w) as [r w1]. cbn [fst snd] in *.
    subst r.
    destruct (IH w1) as (Hn' & Hv' & Ho').
    split; [exact Hn'|]. split; [congruence|].
    intros b. rewrite Ho'. unfold after_dispatch at 1. rewrite Ho.
    unfold after_dispatch. cbn [existsb].
    destruct (nth_error (objects (this w)) b) as [v|]; [|reflexivity].
    cbn [option_map]. f_equal. rewrite orb_false_r.
    destruct (Nat.eqb b a) eqn:Hba; cbn [orb andb].
    + destruct (includes (getStatus v) "available") eqn:Hinc.
      * rewrite (@report_of_available _ (proj1 (status_arrived destination v))).
        rewrite arrived_twice.
        now destruct (existsb (Nat.eqb b) refs).
      * rewrite Hinc. now destruct (existsb (Nat.eqb b) refs).
    + reflexivity.
Qed.

Lemma existsb_eqb_In (a : nat) (refs : list nat) :
  In a refs -> existsb (Nat.eqb a) refs = true.
Proof.
  intros H. apply existsb_exists. exists a. split; [exact H|].
  apply Nat.eqb_refl.
Qed.

(** The report of a vehicle contains whatever its location contains. *)
Lemma report_includes_location (v : Vehicle) (word : string) :
  includes (currentLocation (base_of v)) word = true ->
  includes (getStatus v) word = true.
Proof.
  rewrite !includes_spec. intros (before & after & H).
  unfold getStatus. rewrite H.
  exists ("Vehicle " ++ id (base_of v) ++ " is currently "
          ++ status_text (status (base_of v)) ++ " at " ++ before), after.
  now rewrite !append_assoc.
Qed.

(** ** [FleetManager.dispatchAllTo] *)

Lemma dispatchAllTo_moves_by_report_aux (destination : string)
      (w : World Memory) :
  fst (dispatchAllTo destination w) = Normal tt
  /\ vehicles (this (snd (dispatchAllTo destination w))) = vehicles (this w)
  /\ forall a,
       nth_error (objects (this (snd (dispatchAllTo destination w)))) a
       = after_dispatch (vehicles (this w)) destination (objects (this w)) a.
Proof.
  unfold dispatchAllTo, bind, get_this. cbn [this].
  apply dispatch_each_run.
Qed.

(** X19: [dispatchAllTo] never throws and keeps the array.  Behind every
    reference it leaves the object moved to the destination and available
    when the reference is in the array and the object's status report
    contained the word "available", and leaves it as it was otherwise; this
    holds also when a reference occurs in the array more than once. *)
Theorem dispatchAllTo_moves_by_report (destination : string)
        (w : World Memory) :
  fst (dispatchAllTo destination w) = Normal tt
  /\ vehicles (this (snd (dispatchAllTo destination w))) = vehicles (this w)
  /\ forall a,
       nth_error (objects (this (snd (dispatchAllTo destination w)))) a
       = after_dispatch (vehicles (this w)) destination (objects (this w)) a.
Proof.
  apply dispatchAllTo_moves_by_report_aux.
Qed.

(** X20: When every vehicle of the fleet is available, as every vehicle is that
    the constructors and [moveTo] produce, [dispatchAllTo] brings each of
    them to the destination: same identifier and class data, new location,
    still available. *)
Theorem dispatchAllTo_brings_whole_fleet (destination : string)
        (w : World Memory) :
  (forall a v, In a (vehicles (this w)) ->
               nth_error (objects (this w)) a = Some v ->
               status (base_of v) = available) ->
  forall a v,
    In a (vehicles (this w)) ->
    nth_error (objects (this w)) a = Some v ->
    nth_error (objects (this (snd (dispatchAllTo destination w)))) a
    = Some (arrived destination v)
    /\ id (base_of (arrived destination v)) = id (base_of v)
    /\ currentLocation (base_of (arrived destination v)) = destination
    /\ status (base_of (arrived destination v)) = available.
Proof.
  intros Hall a v Hin Hv.
  destruct (dispatchAllTo_moves_by_report_aux destination w) as (_ & _ & Ho).
  rewrite Ho. unfold after_dispatch. rewrite Hv. cbn [option_map].
  rewrite (existsb_eqb_In _ _ Hin),
    (@report_of_available v (Hall a v Hin Hv)).
  cbn [andb]. destruct (status_arrived destination v) as (H1 & H2 & H3).
  repeat split; assumption.
Qed.

(** X21: The test of [dispatchAllTo] reads the report, not the status: a vehicle
    of the fleet whose location contains the word "available" is moved
    whatever its status, one under maintenance included. *)
Theorem dispatchAllTo_goes_by_text (destination : string) (w : World Memory)
        (a : nat) (v : Vehicle) :
  In a (vehicles (this w)) ->
  nth_error (objects (this w)) a = Some v ->
  includes (currentLocation (base_of v)) "available" = true ->
  nth_error (objects (this (snd (dispatchAllTo destination w)))) a
  = Some (arrived destination v).
Proof.
  intros Hin Hv Hloc.
  destruct (dispatchAllTo_moves_by_report_aux destination w) as (_ & _ & Ho).
  rewrite Ho. unfold after_dispatch. rewrite Hv. cbn [option_map].
  now rewrite (existsb_eqb_In _ _ Hin), (report_includes_location _ _ Hloc).
Qed.

(** ** [loadCargo] and [ascend] *)

(** X22: A truck that is not loaded above its capacity stays so through
    [loadCargo], whether the call completes or throws; a throw changes
    nothing, and a completed call has added the weight. *)
Theorem loadCargo_respects_capacity (a : nat) (weight : number)
        (w : World Memory) (b : VehicleFields) (capacity cargo : number) :
  nth_error (objects (this w)) a = Some (DeliveryTruck b capacity cargo) ->
  (capacity <? cargo) = false ->
  (throws (loadCargo a weight w) -> snd (loadCargo a weight w) = w)
  /\ (fst (loadCargo a weight w) = Normal tt ->
      nth_error (objects (this (snd (loadCargo a weight w)))) a
      = Some (DeliveryTruck b capacity (cargo + weight)))
  /\ exists cargo',
       nth_error (objects (this (snd (loadCargo a weight w)))) a
       = Some (DeliveryTruck b capacity cargo')
       /\ (capacity <? cargo') = false.
Proof.
  intros Hv Hok. unfold throws, loadCargo, deref, update_object, bind,
    get_this, set_this, ret, throw.
  cbn [this console]. rewrite Hv.
  destruct (capacity <? cargo + weight) eqn:Hover.
  - cbn [fst snd this objects]. split; [reflexivity|].
    split; [discriminate|]. exists cargo. now split.
  - cbn [this console]. rewrite Hv. cbn [fst snd this objects].
    rewrite (@nth_error_replace_at_same _ _ _ _ Hv).
    split; [intros [e He]; discriminate|].
    split; [reflexivity|]. exists (cargo + weight). now split.
Qed.

(** X23: The same for a drone and its maximum altitude. *)
Theorem ascend_respects_ceiling (a : nat) (height : number)
        (w : World Memory) (b : VehicleFields) (ceiling altitude : number) :
  nth_error (objects (this w)) a = Some (DeliveryDrone b ceiling altitude) ->
  (ceiling <? altitude) = false ->
  (throws (ascend a height w) -> snd (ascend a height w) = w)
  /\ (fst (ascend a height w) = Normal tt ->
      nth_error (objects (this (snd (ascend a height w)))) a
      = Some (DeliveryDrone b ceiling (altitude + height)))
  /\ exists altitude',
       nth_error (objects (this (snd (ascend a height w)))) a
       = Some (DeliveryDrone b ceiling altitude')
       /\ (ceiling <? altitude') = false.
Proof.
  intros Hv Hok. unfold throws, ascend, deref, update_object, bind,
    get_this, set_this, ret, throw.
  cbn [this console]. rewrite Hv.
  destruct (ceiling <? altitude + height) eqn:Hover.
  - cbn [fst snd this objects]. split; [reflexivity|].
    split; [discriminate|]. exists altitude. now split.
  - cbn [this console]. rewrite Hv. cbn [fst snd this objects].
    rewrite (@nth_error_replace_at_same _ _ _ _ Hv).
    split; [intros [e He]; discriminate|].
    split; [reflexivity|]. exists (altitude + height). now split.
Qed.

(** ** The article's fleet *)

Definition demo_memory : Memory :=
  mkMemory [new_DeliveryTruck "TRUCK-001" "Warehouse A" 5000;
            new_DeliveryDrone "DRONE-001" "Distribution Center" 400]
           [].

Example fleet_demo :
  fst ((addVehicle 0 ;; addVehicle 1 ;;
        dispatchAllTo "Customer Location 123" ;;
        generateFleetReport) (mkWorld demo_memory []))
  = Normal
      ("Vehicle TRUCK-001 is currently available at Customer Location 123"
       ++ newline
       ++ "Vehicle DRONE-001 is currently available at Customer Location 123").
Proof. vm_compute. reflexivity. Qed.

Lemma dispatchAllTo_brings_whole_fleet_witness :
  nth_error
    (objects (this (snd (dispatchAllTo "Customer Location 123"
                           (mkWorld (mkMemory (objects demo_memory) [0; 1; 0]%nat)
                                    [])))))
    0
  = Some (arrived "Customer Location 123"
            (new_DeliveryTruck "TRUCK-001" "Warehouse A" 5000)).
Proof.
  apply (@dispatchAllTo_brings_whole_fleet "Customer Location 123"
           (mkWorld (mkMemory (objects demo_memory) [0; 1; 0]%nat) [])).
  - intros a v _ Hv.
    destruct a as [|[|a]]; cbn in Hv;
      [injection Hv as <-; reflexivity
      |injection Hv as <-; reflexivity
      |destruct a; discriminate].
  - cbn. now left.
  - reflexivity.
Defined.

Lemma dispatchAllTo_goes_by_text_witness :
  nth_error
    (objects (this (snd (dispatchAllTo "Depot"
      (mkWorld
         (mkMemory [DeliveryTruck (mkVehicle "T-9" "unavailable bay" maintenance)
                                  5000 0]
                   [0%nat])
         [])))))
    0
  = Some (DeliveryTruck (mkVehicle "T-9" "Depot" available) 5000 0).
Proof.
  apply (@dispatchAllTo_goes_by_text "Depot"
           (mkWorld
              (mkMemory [DeliveryTruck
                           (mkVehicle "T-9" "unavailable bay" maintenance)
                           5000 0]
                        [0%nat])
              [])
           0%nat
           (DeliveryTruck (mkVehicle "T-9" "unavailable bay" maintenance)
                          5000 0)).
  - cbn. now left.
  - reflexivity.
  - reflexivity.
Defined.

Lemma loadCargo_respects_capacity_witness :
  exists cargo',
    nth_error
      (objects (this (snd (loadCargo 0 6000
                             (mkWorld (mkMemory (objects demo_memory) []) [])))))
      0
    = Some (DeliveryTruck (mkVehicle "TRUCK-001" "Warehouse A" available)
                          5000 cargo')
    /\ (5000 <? cargo') = false.
Proof.
  apply (@loadCargo_respects_capacity 0 6000
           (mkWorld (mkMemory (objects demo_memory) []) [])
           (mkVehicle "TRUCK-001" "Warehouse A" available) 5000 0);
    reflexivity.
Defined.

Lemma ascend_respects_ceiling_witness :
  exists altitude',
    nth_error
      (objects (this (snd (ascend 1 150
                             (mkWorld (mkMemory (objects demo_memory) []) [])))))
      1
    = Some (DeliveryDrone (mkVehicle "DRONE-001" "Distribution Center" available)
                          400 altitude')
    /\ (400 <? altitude') = false.
Proof.
  apply (@ascend_respects_ceiling 1 150
           (mkWorld (mkMemory (objects demo_memory) []) [])
           (mkVehicle "DRONE-001" "Distribution Center" available) 400 0);
    reflexivity.
Defined.

End Fleet.

(* ================================================================== *)
(** * interface Employee, Manager, Developer and PrintDetail *)
(* ================================================================== *)

Module Employees.
Import Host Effects.
Open Scope string_scope.
Open Scope js_scope.

(** [a.forEach(callback)]: the callback on each element, first to last; a
    throw ends the loop. *)
Fixpoint forEach {O A} (a : list A) (callback : A -> M O unit) : M O unit :=
  match a with
  | [] => ret tt
  | x :: rest => callback x ;; forEach rest callback
  end.

(** The interface: a class implements it by giving [detail]. *)
Class Employee (E : Type) : Type := {
  detail : E -> list string -> M unit unit
}.

(** The two classes have no fields. *)
Inductive Manager : Type := new_Manager.
Inductive Developer : Type := new_Developer.

#[export] Instance Manager_Employee : Employee Manager := {
  detail _ responsibility :=
    forEach responsibility (fun r => print (console_log [PText ("[mgr]- " ++ r)]))
}.

#[export] Instance Developer_Employee : Employee Developer := {
  detail _ responsibility :=
    forEach responsibility (fun d => print (console_log [PText ("[dev]- " ++ d)]))
}.

Definition PrintDetail {E} `{Employee E} (employee : E) (duty : list string)
  : M unit unit :=
  detail employee duty.

(** A loop that only prints adds its lines in the order of the array. *)
Lemma forEach_print {O A} (a : list A) (line : A -> console_line)
      (w : World O) :
  forEach a (fun x => print (line x)) w
  = (Normal tt, mkWorld (this w) (console w ++ map line a)%list).
Proof.
  revert w. induction a as [|x a IH]; intros w.
  - cbn. rewrite app_nil_r. now destruct w.
  - cbn [forEach]. unfold bind, print at 1. rewrite IH.
    cbn [this console map]. now rewrite <- app_assoc.
Qed.

(** X24: [PrintDetail] prints one line for each duty, in the order of the array,
    with the tag of the class of the employee it was given, and returns
    normally; with no duties it prints nothing. *)
Theorem PrintDetail_prints_each_duty (duty : list string) (w : World unit) :
  PrintDetail new_Manager duty w
  = (Normal tt,
     mkWorld (this w)
       (console w ++ map (fun r => console_log [PText ("[mgr]- " ++ r)]) duty)%list)
  /\ PrintDetail new_Developer duty w
     = (Normal tt,
        mkWorld (this w)
          (console w ++ map (fun d => console_log [PText ("[dev]- " ++ d)]) duty)%list).
Proof.
  unfold PrintDetail. cbn [detail Manager_Employee Developer_Employee].
  split; apply forEach_print.
Qed.

(** The two calls of the file. *)
Example PrintDetail_demo :
  (PrintDetail new_Manager
     ["manage Empleyee"; "coordinate the company operations"] ;;
   PrintDetail new_Developer
     ["develop New Systems"; "maintain the existing systems"])
    (mkWorld tt [])
  = (Normal tt,
     mkWorld tt
       [console_log [PText "[mgr]- manage Empleyee"];
        console_log [PText "[mgr]- coordinate the company operations"];
        console_log [PText "[dev]- develop New Systems"];
        console_log [PText "[dev]- maintain the existing systems"]]).
Proof. reflexivity. Qed.

End Employees.

(* ================================================================== *)
(** * handleFormChange, updateFormState and Store<T> *)
(* ================================================================== *)

(** The objects here are plain records of named fields, read and rebuilt by
    field name; they are finite maps from field names to values. *)
From stdpp Require Import gmap strings.

Module Forms.

Section Objects.

(** The type of the field values ([any] for [handleFormChange]). *)
Context {V : Type}.

(** [{ ...formState, [field]: value }] *)
Definition handleFormChange (formState : gmap string V) (field : string)
           (value : V) : gmap string V :=
  <[field := value]> formState.

(** [class Store<T>]: the one private field. *)
Record Store : Type := new_Store { state : gmap string V }.

Definition getState (this : Store) : gmap string V := state this.

(** [this.state = { ...this.state, ...partial }]: the fields of [partial]
    win over those of the state. *)
Definition update (partial : gmap string V) (this : Store) : Store :=
  new_Store (partial ∪ state this).

(** X25: [handleFormChange] gives the named field the new value, keeps every
    other field, and, when the field is one the form already has, keeps the
    set of fields. *)
Theorem handleFormChange_sets_one_field (formState : gmap string V)
        (field : string) (value : V) :
  handleFormChange formState field value !! field = Some value
  /\ (forall k : string,
        k <> field ->
        handleFormChange formState field value !! k = formState !! k)
  /\ (is_Some (formState !! field) ->
      dom (handleFormChange formState field value) = dom formState).
Proof.
  unfold handleFormChange. split; [apply lookup_insert_eq|]. split.
  - intros k Hk. now apply lookup_insert_ne.
  - intros Hsome. rewrite dom_insert_L.
    apply subseteq_union_1_L, singleton_subseteq_l, elem_of_dom, Hsome.
Qed.


(** X27: After [update(partial)] the state has the value of [partial] for every
    field that [partial] has and its old value for every other field; two
    updates in a row are one update with the second partial laid over the
    first; an update with no fields changes nothing. *)
Theorem Store_update_merges (partial partial' : gmap string V)
        (this : Store) :
  (forall k : string,
      getState (update partial this) !! k
      = match partial !! k with
        | Some v => Some v
        | None => getState this !! k
        end)
  /\ update partial' (update partial this)
     = update (partial' ∪ partial) this
  /\ update ∅ this = this.
Proof.
  unfold getState, update. cbn [state]. split; [|split].
  - intros k. rewrite lookup_union.
    destruct (partial !! k), (state this !! k); reflexivity.
  - now rewrite (assoc_L (∪)).
  - rewrite (left_id_L ∅ (∪)). now destruct this.
Qed.

End Objects.

(** [updateFormState] of [demo/index.ts], the two values read from the page
    being its arguments: both fields are replaced, one after the other. *)
Definition updateFormState (email password : string)
           (formState : gmap string string) : gmap string string :=
  let formState := handleFormChange formState "email" email in
  let formState := handleFormChange formState "password" password in
  formState.

(** X28: Whatever a form with the fields [email] and [password] held before,
    after [updateFormState] it holds exactly the two values read. *)
Theorem updateFormState_overwrites_both (email password : string)
        (formState : gmap string string) :
  dom formState ⊆ {["email"; "password"]} ->
  updateFormState email password formState
  = {["email" := email; "password" := password]}.
Proof.
  intros Hdom. unfold updateFormState, handleFormChange.
  apply map_eq. intros k.
  destruct (decide (k = "password")) as [->|Hp]; [by simplify_map_eq|].
  destruct (decide (k = "email")) as [->|He]; [by simplify_map_eq|].
  simplify_map_eq. apply not_elem_of_dom.
  intros Hk. apply Hdom in Hk.
  apply elem_of_union in Hk as [Hk|Hk]; apply elem_of_singleton in Hk;
    congruence.
Qed.

Lemma handleFormChange_sets_one_field_witness :
  dom (handleFormChange ({["email" := ""; "password" := ""]} : gmap string string)
         "email" "jean@email.com")
  = dom ({["email" := ""; "password" := ""]} : gmap string string).
Proof.
  apply (handleFormChange_sets_one_field
           ({["email" := ""; "password" := ""]} : gmap string string)
           "email" "jean@email.com").
  rewrite lookup_insert_eq. eauto.
Defined.


Lemma updateFormState_overwrites_both_witness :
  updateFormState "jean@email.com" "123@Abc"
    {["email" := ""; "password" := ""]}
  = {["email" := "jean@email.com"; "password" := "123@Abc"]}.
Proof.
  apply updateFormState_overwrites_both.
  rewrite dom_insert_L, dom_singleton_L. reflexivity.
Defined.

End Forms.
